(** * A shallow embedding of the bot's cogs

    The development follows the Python sources module by module:

    - [Py]          exceptions, results and the state-and-error monad in which
                    the coroutines are written;
    - [Pagination]  [bot/pagination.py]: line packing and the reaction loops of
                    [LinePaginator] and [ImagePaginator];
    - [Reminders]   [bot/cogs/reminders.py];
    - [Starboard]   [bot/cogs/starboard.py];
    - [Sync]        [bot/cogs/sync/cog.py].

    The embedding comes first; the theorems about it, with the concrete runs
    they are checked on, follow in the modules whose names end in [Facts]. *)

From Stdlib Require Import ZArith String List Lia Bool.
From stdpp Require Import gmap strings list sorting.
Import ListNotations.

(* ===================================================================== *)
(** * Python results, exceptions and effects                              *)
(* ===================================================================== *)

Module Py.

(** The exceptions the modelled code raises, catches or lets through. *)
Inductive exn : Type :=
| RuntimeError (limit : Z)      (* 'Line exceeds maximum page size %s' *)
| TypeError
| IndexError
| KeyError
| AttributeError
| EmptyPaginatorEmbed
| NoStarboardException
| Forbidden                     (* discord.Forbidden *)
| NotFound                      (* discord.NotFound *)
| HTTPException                 (* discord.HTTPException *)
| ClientResponseError (status : Z)   (* aiohttp, raised by the api client *)
| DuplicateTask                 (* scheduling an id that is already live *)
| NameError.                    (* reading a name that is bound nowhere *)

Inductive result (A : Type) : Type :=
| Ok (a : A)
| Raise (e : exn).
Arguments Ok {A} a.
Arguments Raise {A} e.

(** A coroutine runs against a state [S] and an environment script: every call
    that leaves the process (HTTP request, message send, reaction edit) takes
    the next entry of [plan]; [None], or an exhausted plan, lets the call go
    through, [Some e] makes it raise [e] before it has any effect. *)
Record Env (S : Type) : Type := mkEnv { st : S; plan : list (option exn) }.
Arguments mkEnv {S} st plan.
Arguments st {S} e.
Arguments plan {S} e.

Definition M (S A : Type) : Type := Env S -> result A * Env S.

Definition ret {S A} (a : A) : M S A := fun w => (Ok a, w).

Definition bind {S A B} (c : M S A) (k : A -> M S B) : M S B :=
  fun w => match c w with
           | (Ok a, w') => k a w'
           | (Raise e, w') => (Raise e, w')
           end.

Definition raise {S A} (e : exn) : M S A := fun w => (Raise e, w).

Definition get {S} : M S S := fun w => (Ok (st w), w).

Definition modify {S} (f : S -> S) : M S unit :=
  fun w => (Ok tt, mkEnv (f (st w)) (plan w)).

(** A pure step that may raise. *)
Definition lift {S A} (r : result A) : M S A :=
  match r with Ok a => ret a | Raise e => raise e end.

(** One call to the outside world. *)
Definition external {S} : M S unit :=
  fun w => match plan w with
           | [] => (Ok tt, w)
           | None :: rest => (Ok tt, mkEnv (st w) rest)
           | Some e :: rest => (Raise e, mkEnv (st w) rest)
           end.

(** [try: c except <handles>: h] *)
Definition try_except {S A} (c : M S A) (handles : exn -> bool) (h : exn -> M S A) : M S A :=
  fun w => match c w with
           | (Ok a, w') => (Ok a, w')
           | (Raise e, w') => if handles e then h e w' else (Raise e, w')
           end.

Declare Scope py_scope.
Delimit Scope py_scope with py.
Notation "x <- c ;; k" := (bind c (fun x => k))
  (at level 100, c at next level, right associativity) : py_scope.
Notation "c ;;; k" := (bind c (fun _ => k))
  (at level 100, right associativity) : py_scope.

(** [for x in l: body x] *)
Fixpoint for_each {S A} (l : list A) (body : A -> M S unit) : M S unit :=
  match l with
  | [] => ret tt
  | x :: rest => bind (body x) (fun _ => for_each rest body)
  end.

(** [len(s)] of a string. *)
Definition len (s : string) : Z := Z.of_nat (String.length s).

(** [seq[i]] with Python's negative indices; out of range is an IndexError. *)
Definition py_index {A} (l : list A) (i : Z) : result A :=
  let n := Z.of_nat (length l) in
  let j := if (i <? 0)%Z then (i + n)%Z else i in
  if ((j <? 0) || (n <=? j))%Z then Raise IndexError
  else match nth_error l (Z.to_nat j) with
       | Some x => Ok x
       | None => Raise IndexError
       end.

End Py.

(* ===================================================================== *)
(** * bot/pagination.py                                                   *)
(* ===================================================================== *)

Module Pagination.
Import Py.
Local Open Scope Z_scope.

Definition newline : string := String (Ascii.ascii_of_nat 10) EmptyString.

(** ['\n'.join(parts)] *)
Definition join_lines (parts : list string) : string := String.concat newline parts.

(** ** LinePaginator: the attributes set by [__init__] *)
Record LinePaginator : Type := mkLinePaginator {
  prefix : string;
  suffix : string;
  max_size : Z;
  max_lines : option Z;
  _current_page : list string;
  _linecount : Z;
  _count : Z;
  _pages : list string
}.

Definition LinePaginator_init (prefix suffix : string) (max_size : Z) (max_lines : option Z)
  : LinePaginator :=
  {| prefix := prefix;
     suffix := suffix;
     max_size := max_size - len suffix;
     max_lines := max_lines;
     _current_page := [prefix];
     _linecount := 0;
     _count := len prefix + 1;
     _pages := [] |}.

(** [Paginator.close_page] of discord.ext.commands, inherited unchanged:
    append the suffix, render the page, start a new one. *)
Definition close_page (p : LinePaginator) : LinePaginator :=
  {| prefix := prefix p;
     suffix := suffix p;
     max_size := max_size p;
     max_lines := max_lines p;
     _current_page := [prefix p];
     _linecount := _linecount p;
     _count := len (prefix p) + 1;
     _pages := _pages p ++ [join_lines (_current_page p ++ [suffix p])] |}.

Definition set_linecount (n : Z) (p : LinePaginator) : LinePaginator :=
  {| prefix := prefix p;
     suffix := suffix p;
     max_size := max_size p;
     max_lines := max_lines p;
     _current_page := _current_page p;
     _linecount := n;
     _count := _count p;
     _pages := _pages p |}.

(** [self._count += n; self._current_page.append(line)] *)
Definition append_entry (n : Z) (line : string) (p : LinePaginator) : LinePaginator :=
  {| prefix := prefix p;
     suffix := suffix p;
     max_size := max_size p;
     max_lines := max_lines p;
     _current_page := _current_page p ++ [line];
     _linecount := _linecount p;
     _count := _count p + n;
     _pages := _pages p |}.

(** The largest line [add_line] takes. *)
Definition line_limit (p : LinePaginator) : Z := max_size p - len (prefix p) - 2.

(** [LinePaginator.add_line(line, empty=empty)] *)
Definition add_line (line : string) (empty : bool) (p : LinePaginator) : result LinePaginator :=
  if len line >? line_limit p then Raise (RuntimeError (line_limit p))
  else
    let p1 :=
      match max_lines p with
      | Some ml =>
          let q := if _linecount p >=? ml then close_page (set_linecount 0 p) else p in
          set_linecount (_linecount q + 1) q
      | None => p
      end in
    let p2 := if _count p1 + len line + 1 >? max_size p1 then close_page p1 else p1 in
    let p3 := append_entry (len line + 1) line p2 in
    Ok (if empty then append_entry 1 EmptyString p3 else p3).

(** The [pages] property of discord's Paginator: close a page that holds more
    than the prefix, then hand out the rendered pages. *)
Definition flush (p : LinePaginator) : LinePaginator :=
  if (1 <? length (_current_page p))%nat then close_page p else p.

Definition pages (p : LinePaginator) : list string := _pages (flush p).

(** [for line in lines: paginator.add_line(line, empty=empty)]; an exception
    of [add_line] is logged and raised again. *)
Fixpoint add_lines (lines : list string) (empty : bool) (p : LinePaginator)
  : result LinePaginator :=
  match lines with
  | [] => Ok p
  | line :: rest =>
      match add_line line empty p with
      | Ok p' => add_lines rest empty p'
      | Raise e => Raise e
      end
  end.

Definition nothing_to_display : string := "(nothing to display)".

(** The packing part of [LinePaginator.paginate], up to the pages it sends. *)
Definition paginate_pack (lines : list string) (prefix suffix : string)
    (max_lines : option Z) (max_size : Z) (empty exception_on_empty_embed : bool)
  : result (list string) :=
  let paginator := LinePaginator_init prefix suffix max_size max_lines in
  match lines with
  | [] =>
      if exception_on_empty_embed then Raise EmptyPaginatorEmbed
      else match add_lines [nothing_to_display] empty paginator with
           | Ok p => Ok (pages p)
           | Raise e => Raise e
           end
  | _ =>
      match add_lines lines empty paginator with
      | Ok p => Ok (pages p)
      | Raise e => Raise e
      end
  end.

(** What a page holds for a run of whole input lines: the prefix, every line
    (followed by the blank entry when [empty] is set), the suffix. *)
Definition entries (empty : bool) (chunk : list string) : list string :=
  flat_map (fun line => if empty then [line; EmptyString] else [line]) chunk.

Definition render (prefix suffix : string) (empty : bool) (chunk : list string) : string :=
  join_lines (prefix :: entries empty chunk ++ [suffix]).

(** ** The reaction loops *)

Inductive emoji : Type :=
| FIRST_EMOJI | LEFT_EMOJI | RIGHT_EMOJI | LAST_EMOJI | DELETE_EMOJI.

Definition PAGINATION_EMOJI : list emoji :=
  [FIRST_EMOJI; LEFT_EMOJI; RIGHT_EMOJI; LAST_EMOJI; DELETE_EMOJI].

Definition emoji_eqb (a b : emoji) : bool :=
  match a, b with
  | FIRST_EMOJI, FIRST_EMOJI | LEFT_EMOJI, LEFT_EMOJI | RIGHT_EMOJI, RIGHT_EMOJI
  | LAST_EMOJI, LAST_EMOJI | DELETE_EMOJI, DELETE_EMOJI => true
  | _, _ => false
  end.

(** The footer is the page indicator, with the caller's [footer_text] in front
    when there is one: ["{footer_text} (Page i/n)"] or ["Page i/n"]. *)
Record Footer : Type := mkFooter { label : option string; page_no : Z; page_total : Z }.

Record Embed : Type := mkEmbed {
  description : string;
  footer : option Footer;
  image : option string
}.

Definition set_description (d : string) (e : Embed) : Embed :=
  {| description := d; footer := footer e; image := image e |}.
Definition set_footer (f : Footer) (e : Embed) : Embed :=
  {| description := description e; footer := Some f; image := image e |}.
Definition set_image (url : string) (e : Embed) : Embed :=
  {| description := description e; footer := footer e; image := Some url |}.

(** The message the view lives on: the embed it shows, the control reactions
    still attached, and the user reactions taken off it so far. *)
Record Message : Type := mkMessage {
  shown : Embed;
  controls : list emoji;
  consumed : list emoji
}.

(** [await message.edit(embed=embed)] *)
Definition edit (e : Embed) : M Message unit :=
  bind external (fun _ => modify (fun m =>
    {| shown := e; controls := controls m; consumed := consumed m |})).

(** [await message.remove_reaction(reaction.emoji, user)] *)
Definition remove_reaction (r : emoji) : M Message unit :=
  bind external (fun _ => modify (fun m =>
    {| shown := shown m; controls := controls m; consumed := consumed m ++ [r] |})).

(** [await message.clear_reactions()] *)
Definition clear_reactions : M Message unit :=
  bind external (fun _ => modify (fun m =>
    {| shown := shown m; controls := []; consumed := consumed m |})).

(** What [wait_for("reaction_add", timeout=..., check=...)] hands back: an
    accepted reaction, or asyncio.TimeoutError. *)
Inductive wait_result : Type :=
| TimedOut
| Reacted (r : emoji).

(** Where control goes after one statement of the loop body: on to the next
    statement, back to the top of the loop ([continue]), or out ([break]). *)
Inductive flow : Type :=
| Fall (current_page : Z) (embed : Embed)
| Again (current_page : Z) (embed : Embed)
| Out.

Definition and_then {S} (c : M S flow) (k : Z -> Embed -> M S flow) : M S flow :=
  bind c (fun f => match f with
                   | Fall p e => k p e
                   | Again p e => ret (Again p e)
                   | Out => ret Out
                   end).

(** [if footer_text:] an empty text counts as none. *)
Definition footer_label (footer_text : option string) : option string :=
  match footer_text with
  | Some text => if String.eqb text EmptyString then None else Some text
  | None => None
  end.

(** The text LinePaginator repeats in each branch: blank the description, edit,
    put the page and the footer in, edit again. *)
Definition line_show (pages : list string) (footer_text : option string)
    (current_page : Z) (embed : Embed) : M Message Embed :=
  let embed := set_description EmptyString embed in
  bind (edit embed) (fun _ =>
  bind (lift (py_index pages current_page)) (fun page =>
  let embed := set_description page embed in
  let embed := set_footer (mkFooter (footer_label footer_text) (current_page + 1) (Z.of_nat (length pages))) embed in
  bind (edit embed) (fun _ => ret embed))).

(** One pass through the body of LinePaginator's [while True], after
    [wait_for] returned [reaction]. *)
Definition line_body (pages : list string) (footer_text : option string)
    (reaction : emoji) (current_page : Z) (embed : Embed) : M Message flow :=
  if emoji_eqb reaction DELETE_EMOJI then ret Out else
  and_then
    (if emoji_eqb reaction FIRST_EMOJI then
       bind (remove_reaction reaction) (fun _ =>
       let current_page := 0 in
       bind (line_show pages footer_text current_page embed) (fun embed =>
       ret (Fall current_page embed)))
     else ret (Fall current_page embed))
  (fun current_page embed =>
  and_then
    (if emoji_eqb reaction LAST_EMOJI then
       bind (remove_reaction reaction) (fun _ =>
       let current_page := Z.of_nat (length pages) - 1 in
       bind (line_show pages footer_text current_page embed) (fun embed =>
       ret (Fall current_page embed)))
     else ret (Fall current_page embed))
  (fun current_page embed =>
  and_then
    (if emoji_eqb reaction LEFT_EMOJI then
       bind (remove_reaction reaction) (fun _ =>
       if current_page <=? 0 then ret (Again current_page embed)
       else
         let current_page := current_page - 1 in
         bind (line_show pages footer_text current_page embed) (fun embed =>
         ret (Fall current_page embed)))
     else ret (Fall current_page embed))
  (fun current_page embed =>
    if emoji_eqb reaction RIGHT_EMOJI then
      bind (remove_reaction reaction) (fun _ =>
      if current_page >=? Z.of_nat (length pages) - 1 then ret (Again current_page embed)
      else
        let current_page := current_page + 1 in
        bind (line_show pages footer_text current_page embed) (fun embed =>
        ret (Fall current_page embed)))
    else ret (Fall current_page embed)))).

(** How a loop stands when the events at hand are used up. *)
Inductive ending : Type := ByTimeout | ByClose.

Inductive outcome : Type :=
| Waiting (current_page : Z)              (* suspended in [wait_for] *)
| Ended (why : ending) (current_page : Z). (* left the loop, reactions cleared *)

(** LinePaginator's [while True] and the [clear_reactions] after it, run on
    the results [wait_for] delivers in turn. *)
Fixpoint line_loop (pages : list string) (footer_text : option string)
    (events : list wait_result) (current_page : Z) (embed : Embed) : M Message outcome :=
  match events with
  | [] => ret (Waiting current_page)
  | TimedOut :: _ =>
      bind clear_reactions (fun _ => ret (Ended ByTimeout current_page))
  | Reacted reaction :: rest =>
      bind (line_body pages footer_text reaction current_page embed) (fun f =>
      match f with
      | Out => bind clear_reactions (fun _ => ret (Ended ByClose current_page))
      | Fall p e | Again p e => line_loop pages footer_text rest p e
      end)
  end.

(** [paginator.pages - 1]: a list has no subtraction. *)
Definition list_minus_int {A} (l : list A) (n : Z) : result (list A) := Raise TypeError.

(** The tail of ImagePaginator's loop body, "after page and reaction_type is
    set". An image that is the empty string is falsy and leaves the embed's
    image alone. *)
Definition image_show (pages images : list string) (current_page : Z) (embed : Embed)
  : M Message Embed :=
  let embed := set_description EmptyString embed in
  bind (edit embed) (fun _ =>
  bind (lift (py_index pages current_page)) (fun page =>
  let embed := set_description page embed in
  bind (lift (py_index images current_page)) (fun img =>
  let embed := if String.eqb img EmptyString then embed else set_image img embed in
  let embed := set_footer (mkFooter None (current_page + 1) (Z.of_nat (length pages))) embed in
  bind (edit embed) (fun _ => ret embed)))).

(** One pass through the body of ImagePaginator's [while True]. *)
Definition image_body (pages images : list string)
    (reaction : emoji) (current_page : Z) (embed : Embed) : M Message flow :=
  bind (remove_reaction reaction) (fun _ =>
  if emoji_eqb reaction DELETE_EMOJI then ret Out else
  and_then
    (if emoji_eqb reaction FIRST_EMOJI then
       if current_page =? 0 then ret (Again current_page embed)
       else ret (Fall 0 embed)
     else ret (Fall current_page embed))
  (fun current_page embed =>
  and_then
    (if emoji_eqb reaction LAST_EMOJI then
       if current_page >=? Z.of_nat (length pages) - 1 then ret (Again current_page embed)
       else
         bind (lift (list_minus_int pages 1)) (fun shorter =>
         ret (Fall (Z.of_nat (length shorter)) embed))
     else ret (Fall current_page embed))
  (fun current_page embed =>
  and_then
    (if emoji_eqb reaction LEFT_EMOJI then
       if current_page <=? 0 then ret (Again current_page embed)
       else ret (Fall (current_page - 1) embed)
     else ret (Fall current_page embed))
  (fun current_page embed =>
  and_then
    (if emoji_eqb reaction RIGHT_EMOJI then
       if current_page >=? Z.of_nat (length pages) - 1 then ret (Again current_page embed)
       else ret (Fall (current_page + 1) embed)
     else ret (Fall current_page embed))
  (fun current_page embed =>
    bind (image_show pages images current_page embed) (fun embed =>
    ret (Fall current_page embed))))))).

Fixpoint image_loop (pages images : list string)
    (events : list wait_result) (current_page : Z) (embed : Embed) : M Message outcome :=
  match events with
  | [] => ret (Waiting current_page)
  | TimedOut :: _ =>
      bind clear_reactions (fun _ => ret (Ended ByTimeout current_page))
  | Reacted reaction :: rest =>
      bind (image_body pages images reaction current_page embed) (fun f =>
      match f with
      | Out => bind clear_reactions (fun _ => ret (Ended ByClose current_page))
      | Fall p e | Again p e => image_loop pages images rest p e
      end)
  end.

(** The page a pass through a loop body leaves the view on; [None] when the
    pass left the loop. *)
Definition page_after (f : flow) : option Z :=
  match f with
  | Fall p _ | Again p _ => Some p
  | Out => None
  end.

(** The transition table of the specification, section 4.3, written from its
    rows: current page [p], last page index [L]; [None] is "terminates loop". *)
Definition table_transition (L p : Z) (event : emoji) : option Z :=
  match event with
  | DELETE_EMOJI => None
  | FIRST_EMOJI => Some (if negb (p =? 0) then 0 else p)
  | LAST_EMOJI => Some (if negb (p =? L) then L else p)
  | LEFT_EMOJI => Some (if p >? 0 then p - 1 else p)
  | RIGHT_EMOJI => Some (if p <? L then p + 1 else p)
  end.

(** ** Sending the view *)

(** The paginator is run against the message it sends: none before
    [ctx.send], the sent message from then on. *)

(** [await ctx.send(embed=embed)] *)
Definition ctx_send (embed : Embed) : M (option Message) unit :=
  bind external (fun _ => modify (fun _ =>
    Some {| shown := embed; controls := []; consumed := [] |})).

(** [await message.add_reaction(emoji)] *)
Definition add_reaction (r : emoji) : M Message unit :=
  bind external (fun _ => modify (fun m =>
    {| shown := shown m; controls := controls m ++ [r]; consumed := consumed m |})).

(** A coroutine on [message], run where the message may not exist yet. *)
Definition on_message {A} (c : M Message A) : M (option Message) A :=
  fun w => match st w with
           | Some m =>
               let '(r, w') := c (mkEnv m (plan w)) in
               (r, mkEnv (Some (st w')) (plan w'))
           | None => (Raise AttributeError, w)
           end.


(** ** ImagePaginator *)

Module Image.

(** The attributes of discord's Paginator, and [images]. *)
Record ImagePaginator : Type := mkImagePaginator {
  prefix : string;
  suffix : string;
  max_size : Z;
  _current_page : list string;
  _count : Z;
  _pages : list string;
  images : list string
}.

(** [super().__init__(prefix, suffix)] leaves [max_size] at discord's 2000. *)
Definition init (prefix suffix : string) : ImagePaginator :=
  {| prefix := prefix;
     suffix := suffix;
     max_size := 2000 - len suffix;
     _current_page := [prefix];
     _count := len prefix + 1;
     _pages := [];
     images := [] |}.

(** [Paginator.close_page], inherited. *)
Definition close_page (p : ImagePaginator) : ImagePaginator :=
  {| prefix := prefix p;
     suffix := suffix p;
     max_size := max_size p;
     _current_page := [prefix p];
     _count := len (prefix p) + 1;
     _pages := _pages p ++ [join_lines (_current_page p ++ [suffix p])];
     images := images p |}.

(** [ImagePaginator.add_line(line)]: every line is a page. *)
Definition add_line (line : string) (p : ImagePaginator) : ImagePaginator :=
  close_page
    {| prefix := prefix p;
       suffix := suffix p;
       max_size := max_size p;
       _current_page := _current_page p ++ [line];
       _count := if String.eqb line EmptyString then 0 else len line;
       _pages := _pages p;
       images := images p |}.

(** [ImagePaginator.add_image(image)] *)
Definition add_image (image : string) (p : ImagePaginator) : ImagePaginator :=
  {| prefix := prefix p;
     suffix := suffix p;
     max_size := max_size p;
     _current_page := _current_page p;
     _count := _count p;
     _pages := _pages p;
     images := images p ++ [image] |}.

(** The [pages] property. *)
Definition pages (p : ImagePaginator) : list string :=
  _pages (if (1 <? length (_current_page p))%nat then close_page p else p).

(** [for text, image_url in pages: add_line(text); add_image(image_url)] *)
Definition add_all (pairs : list (string * string)) (p : ImagePaginator) : ImagePaginator :=
  fold_left (fun p pair => add_image (snd pair) (add_line (fst pair) p)) pairs p.

End Image.

Definition no_images_to_display : string := "(no images to display)".

(** [ImagePaginator.paginate] *)
Definition ImagePaginator_paginate (pages : list (string * string)) (embed : Embed)
    (prefix suffix : string) (exception_on_empty_embed : bool)
    (events : list wait_result) : M (option Message) (option outcome) :=
  let paginator := Image.init prefix suffix in
  let current_page := 0 in
  bind (match pages with
        | [] => if exception_on_empty_embed then raise EmptyPaginatorEmbed
                else ret [(no_images_to_display, EmptyString)]
        | _ => ret pages
        end) (fun pages =>
  let paginator := Image.add_all pages paginator in
  bind (lift (py_index (Image.pages paginator) current_page)) (fun page =>
  let embed := set_description page embed in
  bind (lift (py_index (Image.images paginator) current_page)) (fun image =>
  let embed := if String.eqb image EmptyString then embed else set_image image embed in
  if Z.of_nat (length (Image.pages paginator)) <=? 1 then
    bind (ctx_send embed) (fun _ => ret None)
  else
    let embed := set_footer (mkFooter None (current_page + 1)
                               (Z.of_nat (length (Image.pages paginator)))) embed in
    bind (ctx_send embed) (fun _ =>
    bind (on_message (for_each PAGINATION_EMOJI add_reaction)) (fun _ =>
    bind (on_message (image_loop (Image.pages paginator) (Image.images paginator)
                        events current_page embed)) (fun o =>
    ret (Some o))))))).

End Pagination.

(* ===================================================================== *)
(** * bot/cogs/reminders.py                                               *)
(* ===================================================================== *)

Module Reminders.
Import Py.
Local Open Scope Z_scope.
Local Open Scope py_scope.

(** A reminder as the site returns it. [expiration] is the parsed
    [datetime.fromisoformat(reminder['expiration'][:-1])], on a time line of
    integers. *)
Record Reminder : Type := mkReminder {
  id_ : Z;
  author : Z;
  channel_id : Z;
  content : string;
  expiration : Z
}.

(** What the bot has sent to a channel. *)
Inductive Sent : Type :=
| ReminderNotice (channel mention : Z) (content : string) (late : option Z)
| Confirmation (channel : Z) (on_success : string)
| Refusal (channel : Z) (description : string).

(** The reminders the site stores, the id it hands out next, the Scheduler's
    [scheduled_tasks] and the messages sent so far. *)
Record Bot : Type := mkBot {
  reminders_db : list Reminder;
  next_id : Z;
  scheduled_tasks : gmap Z Reminder;
  sent : list Sent
}.

Definition set_db (db : list Reminder) (b : Bot) : Bot :=
  {| reminders_db := db; next_id := next_id b;
     scheduled_tasks := scheduled_tasks b; sent := sent b |}.
Definition set_scheduled (m : gmap Z Reminder) (b : Bot) : Bot :=
  {| reminders_db := reminders_db b; next_id := next_id b;
     scheduled_tasks := m; sent := sent b |}.
Definition push_sent (x : Sent) (b : Bot) : Bot :=
  {| reminders_db := reminders_db b; next_id := next_id b;
     scheduled_tasks := scheduled_tasks b; sent := sent b ++ [x] |}.

(** ** The collaborators that are not in the module *)

(** Modelled from the spec: [bot.utils.scheduling.Scheduler.schedule_task] is
    not among the sources. Section 4.1: scheduling an id that already has a
    live entry is a caller error and never replaces the entry; otherwise the
    entry is created. The entry stands for the suspended [_scheduled_task]
    coroutine of that reminder. *)
Definition schedule_task (task_id : Z) (task_data : Reminder) : M Bot unit :=
  b <- get ;;
  match scheduled_tasks b !! task_id with
  | Some _ => raise DuplicateTask
  | None => modify (set_scheduled (<[task_id := task_data]> (scheduled_tasks b)))
  end.

(** Modelled from the spec: [Scheduler.cancel_task] is not among the sources.
    Section 4.1: remove the entry if there is one; cancelling an unknown or
    already fired id is a no-op. Section 5: a cancel does not interrupt an
    action that is already running. *)
Definition cancel_task (task_id : Z) : M Bot unit :=
  b <- get ;; modify (set_scheduled (delete task_id (scheduled_tasks b))).

(** Modelled from the spec: the remote task store behind [bot.api_client],
    section 6. [get('bot/reminders', params=...)] lists the stored reminders
    that pass the filter. *)
Definition api_get (keep : Reminder -> bool) : M Bot (list Reminder) :=
  external ;;; b <- get ;; ret (List.filter keep (reminders_db b)).

(** Modelled from the spec: [post('bot/reminders', json=...)] stores the
    reminder under an id of the store's choosing and returns it. *)
Definition api_post (author channel_id : Z) (content : string) (expiration : Z)
  : M Bot Reminder :=
  external ;;;
  b <- get ;;
  let reminder := mkReminder (next_id b) author channel_id content expiration in
  modify (fun b => {| reminders_db := reminders_db b ++ [reminder];
                      next_id := next_id b + 1;
                      scheduled_tasks := scheduled_tasks b;
                      sent := sent b |}) ;;;
  ret reminder.

Definition has_id (task_id : Z) (r : Reminder) : bool := id_ r =? task_id.

(** Modelled from the spec: [delete('bot/reminders/<id>')] removes the record;
    a record that is not there is "not found", which the client raises. *)
Definition api_delete (task_id : Z) : M Bot unit :=
  external ;;;
  b <- get ;;
  if existsb (has_id task_id) (reminders_db b)
  then modify (set_db (List.filter (fun r => negb (has_id task_id r)) (reminders_db b)))
  else raise (ClientResponseError 404).

(** [await channel.send(...)] / [await ctx.send(...)] *)
Definition deliver (x : Sent) : M Bot unit :=
  external ;;; modify (push_sent x).

(** ** The cog *)

Section Cog.

(** [Channels.bot] comes from [bot.constants], whose [Channels] class is not
    among the sources; it is taken as given. *)
Variable Channels_bot : Z.

(** [STAFF_ROLES] is read by [new_reminder] and bound nowhere: the module
    imports [Channels], [Icons], [NEGATIVE_REPLIES], [POSITIVE_REPLIES] and
    [Roles] from [bot.constants], assigns [log], [WHITELISTED_CHANNELS] and
    [MAXIMUM_REMINDERS], and no function declares the name. Reading it is a
    NameError. *)
Definition STAFF_ROLES : M Bot (list Z) := raise NameError.

Definition WHITELISTED_CHANNELS : list Z := [Channels_bot].
Definition MAXIMUM_REMINDERS : Z := 5.

Definition mem (x : Z) (l : list Z) : bool := existsb (Z.eqb x) l.

(** [if late:] a relativedelta of zero is falsy. *)
Definition truthy_delta (late : option Z) : option Z :=
  match late with
  | Some d => if d =? 0 then None else Some d
  | None => None
  end.

Definition _delete_reminder (reminder_id : Z) : M Bot unit :=
  api_delete reminder_id ;;;
  (* Now we can remove it from the schedule list *)
  cancel_task reminder_id.

(** The channel and the user of the reminder are taken to be known to the
    bot ([get_channel] and [get_user] find them). *)
Definition send_reminder (reminder : Reminder) (late : option Z) : M Bot unit :=
  deliver (ReminderNotice (channel_id reminder) (author reminder) (content reminder)
             (truthy_delta late)) ;;;
  _delete_reminder (id_ reminder).



Definition _reschedule_reminder (reminder : Reminder) : M Bot unit :=
  cancel_task (id_ reminder) ;;;
  schedule_task (id_ reminder) reminder.

(** The body of the [for reminder in response] loop of [on_ready]. *)
Definition recover (now : Z) (reminder : Reminder) : M Bot unit :=
  let remind_at := expiration reminder in
  if remind_at <? now then
    let late := now - remind_at in
    send_reminder reminder (Some late)
  else
    schedule_task (id_ reminder) reminder.

(** [now] is the clock read after the listing has come back. *)
Definition on_ready (now : Z) : M Bot unit :=
  response <- api_get (fun _ => true) ;;
  for_each response (recover now).

Record Context : Type := mkContext {
  ctx_author : Z;          (* ctx.author.id *)
  ctx_top_role : Z;        (* ctx.author.top_role.id *)
  ctx_channel : Z          (* ctx.channel.id *)
}.

Definition _send_confirmation (ctx : Context) (on_success : string) : M Bot unit :=
  deliver (Confirmation (ctx_channel ctx) on_success).

Definition new_reminder (ctx : Context) (expiration : Z) (content : string) : M Bot unit :=
  (* Now we can attempt to actually set the reminder. *)
  let create : M Bot unit :=
    reminder <- api_post (ctx_author ctx) (ctx_channel ctx) content expiration ;;
    _send_confirmation ctx "Your reminder has been created successfully!" ;;;
    schedule_task (id_ reminder) reminder in
  (* Make sure the reminder should actually be made. *)
  staff_roles <- STAFF_ROLES ;;
  if negb (mem (ctx_top_role ctx) staff_roles) then
    if negb (mem (ctx_channel ctx) WHITELISTED_CHANNELS) then
      deliver (Refusal (ctx_channel ctx) "Sorry, you can't do that here!")
    else
      active_reminders <- api_get (fun r => author r =? ctx_author ctx) ;;
      if Z.of_nat (length active_reminders) >? MAXIMUM_REMINDERS then
        deliver (Refusal (ctx_channel ctx) "You have too many active reminders!")
      else create
  else create.

Definition delete_reminder (ctx : Context) (reminder_id : Z) : M Bot unit :=
  _delete_reminder reminder_id ;;;
  _send_confirmation ctx "That reminder has been deleted successfully!".

End Cog.

(** ** Editing and listing *)

(** The change an edit command sends: [{'expiration': ...}] or
    [{'content': ...}]. *)
Inductive Change : Type :=
| NewExpiration (expiration : Z)
| NewContent (content : string).

Definition changed (c : Change) (r : Reminder) : Reminder :=
  match c with
  | NewExpiration e => mkReminder (id_ r) (author r) (channel_id r) (content r) e
  | NewContent text => mkReminder (id_ r) (author r) (channel_id r) text (expiration r)
  end.

(** Modelled from the spec: [patch('bot/reminders/<id>', json=...)] of the
    remote task store, section 6: the stored record is updated and returned;
    a record that is not there is "not found", which the client raises. *)
Definition api_patch (task_id : Z) (c : Change) : M Bot Reminder :=
  external ;;;
  b <- get ;;
  match find (has_id task_id) (reminders_db b) with
  | Some r =>
      modify (set_db (map (fun x => if has_id task_id x then changed c x else x)
                        (reminders_db b))) ;;;
      ret (changed c r)
  | None => raise (ClientResponseError 404)
  end.

Definition edit_reminder_duration (ctx : Context) (task_id : Z) (expiration : Z)
  : M Bot unit :=
  (* Send the request to update the reminder in the database *)
  reminder <- api_patch task_id (NewExpiration expiration) ;;
  (* Send a confirmation message to the channel *)
  _send_confirmation ctx "That reminder has been edited successfully!" ;;;
  _reschedule_reminder reminder.

Definition edit_reminder_content (ctx : Context) (task_id : Z) (content : string)
  : M Bot unit :=
  reminder <- api_patch task_id (NewContent content) ;;
  _send_confirmation ctx "That reminder has been edited successfully!" ;;;
  _reschedule_reminder reminder.

(** [sorted(items, key=...)] with keys of type [str]: a stable sort, here by
    insertion from the right. Python orders strings lexicographically by
    code point, which on the bytes of the text is [String.leb]. *)
Fixpoint insert_by {A} (key : A -> string) (x : A) (l : list A) : list A :=
  match l with
  | [] => [x]
  | y :: rest =>
      if String.leb (key x) (key y) then x :: y :: rest else y :: insert_by key x rest
  end.

Definition sorted_by {A} (key : A -> string) (l : list A) : list A :=
  fold_right (insert_by key) [] l.

Section Listing.

(** [rem['expiration']], the ISO text of the deadline as the site sends it.
    A [Reminder] keeps the parsed deadline only, so the text is taken as
    given, reminder by reminder. *)
Variable expiration_text : Reminder -> string.

(** The text of one line, ["**Reminder #{id_}:** *expires in {time}* (ID:
    {id_})"] over the content, dedented and stripped; [time] comes from
    [humanize_delta] of [bot.utils.time], which is not among the sources, on
    the parsed [remind_at]. The text is taken as given, a function of the
    clock and of the tuple [(content, remind_at, id)]. *)
Variable line_text : Z -> string * string * Z -> string.

(** [list_reminders], up to what it shows: [None] when it has sent the notice
    that there are no reminders, [Some lines] when it goes on to
    [LinePaginator.paginate(lines, ctx, embed, max_lines=3, empty=True)].
    [key=itemgetter(1)] sorts the tuples on the expiration text as the site
    sent it; the text is parsed afterwards, line by line. The notice is an
    embed of a description alone and is recorded as the other such embeds
    are, by channel and description. *)
Definition list_reminders (now : Z) (ctx : Context) : M Bot (option (list string)) :=
  (* Get all the user's reminders from the database. *)
  data <- api_get (fun r => author r =? ctx_author ctx) ;;
  (* Make a list of tuples so it can be sorted by time. *)
  let reminders :=
    sorted_by (fun t => snd (fst t))
      (map (fun rem => (content rem, expiration_text rem, id_ rem)) data) in
  let lines := map (line_text now) reminders in
  match lines with
  | [] =>
      (* Remind the user that they have no reminders :^) *)
      deliver (Refusal (ctx_channel ctx) "No active reminders could be found.") ;;;
      ret None
  | _ => ret (Some lines)
  end.

End Listing.

End Reminders.

(* ===================================================================== *)
(** * bot/cogs/starboard.py                                               *)
(* ===================================================================== *)

Module Starboard.
Import Py.
Local Open Scope Z_scope.
Local Open Scope py_scope.

(** ** What [star_msg_map] can hold *)

(** [__init__] binds the attribute to a dict; [delete_all_star_entries]
    binds it to a list. *)
Inductive pyobj : Type :=
| PyDict (d : gmap Z Z)
| PyList (l : list Z).

Definition is_dict (o : pyobj) : bool :=
  match o with PyDict _ => true | PyList _ => false end.

(** The position [i] names in a list of length [n], if any. *)
Definition slot (n : nat) (i : Z) : option nat :=
  let j := if i <? 0 then i + Z.of_nat n else i in
  if (j <? 0) || (Z.of_nat n <=? j) then None else Some (Z.to_nat j).

(** [o[k]] *)
Definition getitem (o : pyobj) (k : Z) : result Z :=
  match o with
  | PyDict d => match d !! k with Some v => Ok v | None => Raise KeyError end
  | PyList l => match slot (length l) k with
                | Some n => match l !! n with Some v => Ok v | None => Raise IndexError end
                | None => Raise IndexError
                end
  end.

(** [o[k] = v] *)
Definition setitem (o : pyobj) (k v : Z) : result pyobj :=
  match o with
  | PyDict d => Ok (PyDict (<[k := v]> d))
  | PyList l => match slot (length l) k with
                | Some n => Ok (PyList (<[n := v]> l))
                | None => Raise IndexError
                end
  end.

(** [del o[k]] *)
Definition delitem (o : pyobj) (k : Z) : result pyobj :=
  match o with
  | PyDict d => match d !! k with
                | Some _ => Ok (PyDict (delete k d))
                | None => Raise KeyError
                end
  | PyList l => match slot (length l) k with
                | Some n => Ok (PyList (delete n l))
                | None => Raise IndexError
                end
  end.

(** [k in o]: key membership for a dict, element membership for a list. *)
Definition contains (o : pyobj) (k : Z) : bool :=
  match o with
  | PyDict d => match d !! k with Some _ => true | None => false end
  | PyList l => existsb (Z.eqb k) l
  end.

(** ** Discord and the site *)

Inductive Star : Type := LVL1_STAR | LVL2_STAR | LVL3_STAR | LVL4_STAR.

Definition THRESHOLDS (s : Star) : Z :=
  match s with LVL1_STAR => 2 | LVL2_STAR => 5 | LVL3_STAR => 10 | LVL4_STAR => 20 end.

(** The content of a message: any text, or a starboard line
    ["{count} {star} {channel.mention}"]. *)
Inductive Text : Type :=
| Plain (s : string)
| StarLine (count : Z) (star : Star) (mention : Z).

(** A message: [stars] is the count of its star reaction, if it has one. *)
Record Msg : Type := mkMsg {
  msg_id : Z;
  msg_channel : Z;
  msg_author : Z;
  msg_text : Text;
  stars : option Z
}.

(** A row of the site's starboard table. *)
Record Entry : Type := mkEntry {
  message_id : Z;
  bot_message_id : Z;
  entry_channel_id : Z;
  entry_author_id : Z
}.

(** What a site response carries: the status, and of the JSON body the
    [success] flag and the [message] key (absent, null or an entry). *)
Record Response : Type := mkResponse {
  status : Z;
  success : bool;
  message : option (option Entry)
}.

Record Bot : Type := mkBot {
  star_msg_map : pyobj;
  site_entries : gmap Z Entry;    (* the site's table, by message id *)
  site_up : bool;                 (* a site that is down answers 500 *)
  messages : gmap Z Msg;          (* the guild's messages, by id *)
  next_message : Z                (* the id the next sent message gets *)
}.

Definition set_map (o : pyobj) (b : Bot) : Bot :=
  {| star_msg_map := o; site_entries := site_entries b; site_up := site_up b;
     messages := messages b; next_message := next_message b |}.
Definition set_site (t : gmap Z Entry) (b : Bot) : Bot :=
  {| star_msg_map := star_msg_map b; site_entries := t; site_up := site_up b;
     messages := messages b; next_message := next_message b |}.
Definition set_messages (ms : gmap Z Msg) (b : Bot) : Bot :=
  {| star_msg_map := star_msg_map b; site_entries := site_entries b; site_up := site_up b;
     messages := ms; next_message := next_message b |}.

(** discord.Forbidden and discord.NotFound are HTTPExceptions. *)
Definition is_Forbidden (e : exn) : bool :=
  match e with Forbidden => true | _ => false end.
Definition is_HTTPException (e : exn) : bool :=
  match e with Forbidden | NotFound | HTTPException => true | _ => false end.
Definition is_KeyError (e : exn) : bool :=
  match e with KeyError => true | _ => false end.
Definition is_TypeError_or_IndexError (e : exn) : bool :=
  match e with TypeError | IndexError => true | _ => false end.
Definition is_KeyError_or_NoStarboard (e : exn) : bool :=
  match e with KeyError | NoStarboardException => true | _ => false end.

(** [await channel.get_message(id)]: the message, when the channel has it. *)
Definition get_message (channel id : Z) : M Bot Msg :=
  external ;;;
  b <- get ;;
  match messages b !! id with
  | Some m => if msg_channel m =? channel then ret m else raise NotFound
  | None => raise NotFound
  end.

(** [await channel.send(text, embed=...)] *)
Definition send (channel author : Z) (text : Text) : M Bot Msg :=
  external ;;;
  b <- get ;;
  let m := mkMsg (next_message b) channel author text None in
  modify (fun b => {| star_msg_map := star_msg_map b; site_entries := site_entries b;
                      site_up := site_up b;
                      messages := <[next_message b := m]> (messages b);
                      next_message := next_message b + 1 |}) ;;;
  ret m.

(** [await message.edit(content=text, embed=...)] *)
Definition edit (m : Msg) (text : Text) : M Bot unit :=
  external ;;;
  b <- get ;;
  match messages b !! msg_id m with
  | Some m0 =>
      modify (set_messages (<[msg_id m := mkMsg (msg_id m0) (msg_channel m0) (msg_author m0)
                                             text (stars m0)]> (messages b)))
  | None => raise NotFound
  end.

(** [await message.delete()] *)
Definition delete_message (m : Msg) : M Bot unit :=
  external ;;;
  b <- get ;;
  match messages b !! msg_id m with
  | Some _ => modify (set_messages (delete (msg_id m) (messages b)))
  | None => raise NotFound
  end.

(** [await message.add_reaction(emoji)] by the bot; the bot's own marks are
    not kept. *)
Definition add_reaction : M Bot unit := external.

(** [GET {site_starboard_api}?message_id=k] *)
Definition site_get (k : Z) : M Bot Response :=
  external ;;;
  b <- get ;;
  if site_up b then
    match site_entries b !! k with
    | Some e => ret (mkResponse 200 true (Some (Some e)))
    | None => ret (mkResponse 404 false None)
    end
  else ret (mkResponse 500 false None).

(** [GET {site_starboard_api}], then [json["messages"]] *)
Definition site_get_all : M Bot (list Entry) :=
  external ;;;
  b <- get ;;
  if site_up b then ret (map snd (map_to_list (site_entries b)))
  else raise KeyError.

(** [POST {site_starboard_api}]: 200 it was stored, 400 it exists already. *)
Definition site_post (e : Entry) : M Bot Response :=
  external ;;;
  b <- get ;;
  if site_up b then
    match site_entries b !! message_id e with
    | Some _ => ret (mkResponse 400 false None)
    | None => modify (set_site (<[message_id e := e]> (site_entries b))) ;;;
              ret (mkResponse 200 true None)
    end
  else ret (mkResponse 500 false None).

(** [DELETE {site_starboard_api}?message_id=k] *)
Definition site_delete (k : Z) : M Bot Response :=
  external ;;;
  b <- get ;;
  if site_up b then
    match site_entries b !! k with
    | Some _ => modify (set_site (delete k (site_entries b))) ;;;
                ret (mkResponse 200 true None)
    | None => ret (mkResponse 404 false None)
    end
  else ret (mkResponse 500 false None).

(** [DELETE {site_starboard_api}/delete] *)
Definition site_delete_all : M Bot Response :=
  external ;;;
  b <- get ;;
  if site_up b then
    modify (set_site ∅) ;;; ret (mkResponse 200 true None)
  else ret (mkResponse 500 false None).

(** ** The cog *)

(** A raw reaction event. *)
Inductive Emoji : Type :=
| StarEmoji (s : Star)
| OtherEmoji.

Record Payload : Type := mkPayload {
  guild_id : Z;
  channel_id : Z;
  payload_message_id : Z;
  emoji : Emoji
}.

(** The reaction the owner gives to the wipe prompt within the minute. *)
Inductive Answer : Type := NoAnswer | SaidNo | SaidYes.

Section Cog.

(** [Guild.id] and [Channels.starboard] come from a constants module that is
    not among the sources; [bot_user] is the bot's own user id. *)
Variable Guild_id : Z.
Variable Channels_starboard : Z.
Variable bot_user : Z.

(** [self.star_msg_map[k] = v] *)
Definition cache_set (k v : Z) : M Bot unit :=
  b <- get ;;
  o <- lift (setitem (star_msg_map b) k v) ;;
  modify (set_map o).

(** [del self.star_msg_map[k]] *)
Definition cache_del (k : Z) : M Bot unit :=
  b <- get ;;
  o <- lift (delitem (star_msg_map b) k) ;;
  modify (set_map o).

Definition async_init : M Bot unit :=
  (* Get all starred messages to populate star to msg map *)
  entries <- site_get_all ;;
  for_each entries (fun entry =>
    let key := message_id entry in
    let value := bot_message_id entry in
    cache_set key value).

Definition delete_all_star_entries (ctx_channel : Z) (answer : Answer) : M Bot unit :=
  msg <- send ctx_channel bot_user
           (Plain "This will delete all entries from the starboard, are you sure?") ;;
  add_reaction ;;;
  add_reaction ;;;
  match answer with
  | NoAnswer => ret tt
  | SaidNo => ret tt
  | SaidYes =>
      (* Can never be too sure here. *)
      response <- site_delete_all ;;
      if negb (status response =? 200) then
        reply <- send ctx_channel bot_user (Plain "Something went wrong!") ;;
        ret tt
      else
        add_reaction ;;;
        modify (set_map (PyList []))
  end.

(** [starboard] is what [bot.get_channel(Channels.starboard)] gave the
    caller: the channel's id, or [None]. The channel of the payload is taken
    to be one the bot knows. *)
Definition get_messages (payload : Payload) (starboard : option Z)
  : M Bot (Msg * option Msg) :=
  match starboard with
  | None => raise NoStarboardException
  | Some starboard =>
      let original_channel := channel_id payload in
      original <- get_message original_channel (payload_message_id payload) ;;
      cached <- try_except
                  ((* See if it's stored in cache *)
                   b <- get ;;
                   star_msg_id <- lift (getitem (star_msg_map b) (payload_message_id payload)) ;;
                   star_msg <- get_message starboard star_msg_id ;;
                   ret (Some (original, Some star_msg)))
                  is_KeyError
                  (fun _ => ret None) ;;
      match cached with
      | Some found => ret found
      | None =>
          (* Message was not in cache, but could be stored online *)
          response <- site_get (payload_message_id payload) ;;
          match message response with
          | None => ret (original, None)
          | Some entry =>
              star_msg <- match entry with
                          | Some entry =>
                              try_except
                                (star_msg <- get_message starboard (bot_message_id entry) ;;
                                 ret (Some star_msg))
                                is_TypeError_or_IndexError
                                (fun _ => ret None)
                          | None => ret None
                          end ;;
              ret (original, star_msg)
          end
      end
  end.

Definition post_to_api (original star_msg : Msg) : M Bot bool :=
  response <- site_post (mkEntry (msg_id original) (msg_id star_msg)
                           (msg_channel original) (msg_author original)) ;;
  if negb (status response =? 200) && negb (status response =? 400) then
    (* Delete it from the starboard before anyone notices our flaws in life. *)
    delete_message star_msg ;;;
    ret false
  else ret true.

(** Both handlers, [Forbidden] and [HTTPException], log and return. *)
Definition post_new_entry (original : Msg) (starboard : Z) : M Bot unit :=
  posted <- try_except
              (star_msg <- send starboard bot_user
                             (StarLine (THRESHOLDS LVL1_STAR) LVL1_STAR (msg_channel original)) ;;
               ret (Some star_msg))
              is_HTTPException
              (fun _ => ret None) ;;
  match posted with
  | None => ret tt
  | Some star_msg =>
      stored <- post_to_api original star_msg ;;
      if stored then cache_set (msg_id original) (msg_id star_msg) else ret tt
  end.

Definition change_starcount (starboard : Z) (original star_msg : Msg) (count : Z) : M Bot unit :=
  let star :=
    if count <? THRESHOLDS LVL2_STAR then LVL1_STAR
    else if count <? THRESHOLDS LVL3_STAR then LVL2_STAR
    else if count <? THRESHOLDS LVL4_STAR then LVL3_STAR
    else LVL4_STAR in
  edited <- try_except
              (edit star_msg (StarLine count star (msg_channel original)) ;;; ret true)
              is_HTTPException
              (fun _ => ret false) ;;
  if edited then
    (* Make sure cache and API are up to date. *)
    b <- get ;;
    (if negb (contains (star_msg_map b) (msg_id original))
     then cache_set (msg_id original) (msg_id star_msg)
     else ret tt) ;;;
    response <- site_get (msg_id original) ;;
    if negb (success response) then
      stored <- post_to_api original star_msg ;; ret tt
    else ret tt
  else ret tt.

(** [star] is [None] when the caller found no starboard message. *)
Definition delete_star (original : Msg) (star : option Msg) : M Bot unit :=
  deleting_failed <- try_except
                       (match star with
                        | Some m => delete_message m
                        | None => raise AttributeError
                        end ;;; ret false)
                       is_HTTPException
                       (fun _ => ret true) ;;
  resp <- site_delete (msg_id original) ;;
  if negb (status resp =? 200) then ret tt
  else
    try_except (cache_del (msg_id original)) is_KeyError (fun _ => ret tt).

Definition on_raw_reaction_add (payload : Payload) (starboard : option Z) : M Bot unit :=
  if negb (guild_id payload =? Guild_id) then ret tt else
  match emoji payload with
  | StarEmoji LVL1_STAR =>
      if channel_id payload =? Channels_starboard then ret tt else
      got <- try_except
               (found <- get_messages payload starboard ;; ret (Some found))
               is_KeyError_or_NoStarboard
               (fun _ => ret None) ;;
      match got, starboard with
      | Some (original, star_msg), Some starboard =>
          match stars original with
          | None => delete_star original star_msg
          | Some count =>
              if count <? THRESHOLDS LVL1_STAR then ret tt
              else match star_msg with
                   | None => post_new_entry original starboard
                   | Some star_msg => change_starcount starboard original star_msg count
                   end
          end
      | _, _ => ret tt
      end
  | _ => ret tt
  end.

(** [on_raw_reaction_remove] has no check of the emoji. With no starboard
    message at hand, [change_starcount] fails on its first statement,
    [star_msg.embeds[0]]. *)
Definition on_raw_reaction_remove (payload : Payload) (starboard : option Z) : M Bot unit :=
  if negb (guild_id payload =? Guild_id) then ret tt else
  got <- try_except
           (found <- get_messages payload starboard ;; ret (Some found))
           is_KeyError_or_NoStarboard
           (fun _ => ret None) ;;
  match got, starboard with
  | Some (original, star_msg), Some starboard =>
      match stars original with
      | None => delete_star original star_msg
      | Some count =>
          if count <? THRESHOLDS LVL1_STAR then
            match star_msg with
            | Some _ => delete_star original star_msg
            | None => ret tt
            end
          else
            match star_msg with
            | Some star_msg => change_starcount starboard original star_msg count
            | None => raise AttributeError
            end
      end
  | _, _ => ret tt
  end.

End Cog.

End Starboard.

(* ===================================================================== *)
(** * bot/cogs/sync/cog.py                                                *)
(* ===================================================================== *)

Module Sync.
Import Py.
Local Open Scope Z_scope.
Local Open Scope py_scope.

(** A guild member as the gateway delivers it. [discriminator] is the
    four-digit tag, held as the number [int(member.discriminator)] reads. *)
Record Member : Type := mkMember {
  member_id : Z;
  name : string;
  avatar : option string;
  discriminator : Z;
  roles : list Z             (* the ids of the member's roles *)
}.

(** The JSON body of a user request. *)
Record UserJson : Type := mkUserJson {
  avatar_hash : option string;
  json_discriminator : Z;
  json_id : Z;
  in_guild : bool;
  json_name : string;
  json_roles : list Z
}.

Inductive Request : Type :=
| Put (user : Z) (json : UserJson)       (* PUT bot/users/<user> *)
| Post (json : UserJson).                (* POST bot/users *)

(** The site's user table and the requests the cog has issued. *)
Record Site : Type := mkSite {
  users : gmap Z UserJson;
  requests : list Request
}.

(** [sorted(...)] on role ids. *)
Definition sorted (ids : list Z) : list Z := merge_sort Z.le ids.

(** [await self.bot.api_client.put('bot/users/' + str(user), json=json)]: an
    update of a user the site does not know is answered 404, which the client
    raises. *)
Definition api_put (user : Z) (json : UserJson) : M Site unit :=
  modify (fun s => {| users := users s; requests := requests s ++ [Put user json] |}) ;;;
  external ;;;
  s <- get ;;
  match users s !! user with
  | Some _ => modify (fun s => {| users := <[user := json]> (users s); requests := requests s |})
  | None => raise (ClientResponseError 404)
  end.

(** [await self.bot.api_client.post('bot/users', json=json)] *)
Definition api_post (json : UserJson) : M Site unit :=
  modify (fun s => {| users := users s; requests := requests s ++ [Post json] |}) ;;;
  external ;;;
  modify (fun s => {| users := <[json_id json := json]> (users s); requests := requests s |}).

Definition is_ClientResponseError (e : exn) : bool :=
  match e with ClientResponseError _ => true | _ => false end.

Definition on_member_join (member : Member) : M Site unit :=
  let packed :=
    {| avatar_hash := avatar member;
       json_discriminator := discriminator member;
       json_id := member_id member;
       in_guild := true;
       json_name := name member;
       json_roles := sorted (roles member) |} in
  got_error <- try_except
                 (api_put (member_id member) packed ;;; ret false)
                 is_ClientResponseError
                 (fun e => match e with
                           | ClientResponseError 404 => ret true
                           | _ => raise e
                           end) ;;
  if got_error then api_post packed else ret tt.

Definition on_member_remove (member : Member) : M Site unit :=
  api_put (member_id member)
    {| avatar_hash := avatar member;
       json_discriminator := discriminator member;
       json_id := member_id member;
       in_guild := true;
       json_name := name member;
       json_roles := sorted (roles member) |}.

(** The handler of [ClientResponseError] logs a 404 and re-raises any other
    status. Members compare by what the gateway delivers; [before.roles !=
    after.roles] compares the two lists as they are, unsorted. *)
Definition on_member_update (before after : Member) : M Site unit :=
  if bool_decide (name before <> name after)
     || bool_decide (avatar before <> avatar after)
     || bool_decide (discriminator before <> discriminator after)
     || bool_decide (roles before <> roles after)
  then
    try_except
      (api_put (member_id after)
         {| avatar_hash := avatar after;
            json_discriminator := discriminator after;
            json_id := member_id after;
            in_guild := true;
            json_name := name after;
            json_roles := sorted (roles after) |})
      is_ClientResponseError
      (fun e => match e with
                | ClientResponseError 404 => ret tt
                | _ => raise e
                end)
  else ret tt.

End Sync.

(* ===================================================================== *)
(** * Facts about the effects                                             *)
(* ===================================================================== *)

Module PyFacts.
Import Py.

(** ** Code without handlers lets every failed call through *)

(** [c] catches nothing: the entries of the plan it used are a prefix of the
    plan, and when it returned normally every call it made went through. *)
Definition lets_through {S A} (c : M S A) : Prop :=
  forall w r w', c w = (r, w') ->
    exists used, plan w = used ++ plan w' /\
                 (forall a, r = Ok a -> Forall (fun o => o = None) used).

Lemma lets_through_ret {S A} (a : A) : lets_through (@ret S A a).
Proof. intros w r w' [= <- <-]. exists []. split; [reflexivity | constructor]. Qed.

Lemma lets_through_raise {S A} e : lets_through (@raise S A e).
Proof. intros w r w' [= <- <-]. exists []. split; [reflexivity | discriminate]. Qed.

Lemma lets_through_lift {S A} (x : result A) : lets_through (@lift S A x).
Proof. destruct x; [apply lets_through_ret | apply lets_through_raise]. Qed.

Lemma lets_through_modify {S} (f : S -> S) : lets_through (modify f).
Proof. intros w r w' [= <- <-]. exists []. split; [reflexivity | constructor]. Qed.

Lemma lets_through_external {S} : lets_through (@external S).
Proof.
  intros w r w'. unfold external. destruct (plan w) as [| [e |] rest] eqn:Hp; intros [= <- <-].
  - exists []. split; [now rewrite Hp | constructor].
  - exists [Some e]. split; [reflexivity | discriminate].
  - exists [None]. split; [reflexivity | repeat constructor].
Qed.

Lemma lets_through_bind {S A B} (c : M S A) (k : A -> M S B) :
  lets_through c -> (forall a, lets_through (k a)) -> lets_through (bind c k).
Proof.
  intros Hc Hk w r w' Hrun. unfold bind in Hrun.
  destruct (c w) as [[a | e] w1] eqn:Hcw.
  - destruct (Hc _ _ _ Hcw) as (u1 & Hp1 & Hok1).
    destruct (Hk a _ _ _ Hrun) as (u2 & Hp2 & Hok2).
    exists (u1 ++ u2). split.
    + now rewrite Hp1, Hp2, app_assoc.
    + intros b Hb. apply Forall_app. split; [eapply Hok1; reflexivity | eapply Hok2; exact Hb].
  - injection Hrun as <- <-.
    destruct (Hc _ _ _ Hcw) as (u1 & Hp1 & _).
    exists u1. split; [exact Hp1 | discriminate].
Qed.

(** [c], run with no failing call ahead, returns normally with a value in [P]
    and leaves the plan as empty as it found it. *)
Definition quiet {S A} (c : M S A) (P : A -> Prop) : Prop :=
  forall m, exists a m', c (mkEnv m []) = (Ok a, mkEnv m' []) /\ P a.

Lemma quiet_ret {S A} (a : A) (P : A -> Prop) : P a -> quiet (@ret S A a) P.
Proof. intros Ha m. exists a, m. split; [reflexivity | exact Ha]. Qed.

Lemma quiet_bind {S A B} (c : M S A) (k : A -> M S B) (P : A -> Prop) (Q : B -> Prop) :
  quiet c P -> (forall a, P a -> quiet (k a) Q) -> quiet (bind c k) Q.
Proof.
  intros Hc Hk m. destruct (Hc m) as (a & m1 & Hrun & Ha).
  destruct (Hk a Ha m1) as (b & m2 & Hrun2 & Hb).
  exists b, m2. unfold bind. rewrite Hrun. split; assumption.
Qed.


Lemma quiet_external {S} : quiet (@external S) (fun _ => True).
Proof. intros m. exists tt, m. split; [reflexivity | exact I]. Qed.

Lemma quiet_modify {S} (f : S -> S) : quiet (modify f) (fun _ => True).
Proof. intros m. exists tt, (f m). split; [reflexivity | exact I]. Qed.

Lemma quiet_lift {S A} (x : result A) (a : A) : x = Ok a -> quiet (@lift S A x) (fun y => y = a).
Proof. intros ->. now apply quiet_ret. Qed.

End PyFacts.

Module PaginationFacts.
Import Py PyFacts Pagination.
Local Open Scope Z_scope.

Example pack_three :
  paginate_pack ["aaaa"; "bbbb"; "cc"]%string EmptyString EmptyString None 12 false false
  = Ok [join_lines [EmptyString; "aaaa"; "bbbb"; EmptyString];
        join_lines [EmptyString; "cc"; EmptyString]]%string.
Proof. reflexivity. Qed.

(** ** Packing *)

Section Packing.
Variables (pre suf : string) (empty : bool).

(** The paginator has rendered [chunks] and is collecting [cur]. *)
Definition packed (p : LinePaginator) (chunks : list (list string)) (cur : list string) : Prop :=
  prefix p = pre /\ suffix p = suf /\
  _pages p = map (render pre suf empty) chunks /\
  _current_page p = pre :: entries empty cur.

Lemma packed_init ms ml : packed (LinePaginator_init pre suf ms ml) [] [].
Proof. repeat split. Qed.

Lemma packed_close p chunks cur :
  packed p chunks cur -> packed (close_page p) (chunks ++ [cur]) [].
Proof.
  intros (Hp & Hs & Hpg & Hc). repeat split; simpl; auto.
  - rewrite Hpg, Hc, Hs, map_app. reflexivity.
  - now rewrite Hp.
Qed.

Lemma packed_linecount n p chunks cur :
  packed p chunks cur -> packed (set_linecount n p) chunks cur.
Proof. intros (Hp & Hs & Hpg & Hc). repeat split; assumption. Qed.

Lemma entries_snoc cur line :
  entries empty (cur ++ [line])
  = entries empty cur ++ (if empty then [line; EmptyString] else [line]).
Proof. unfold entries. rewrite flat_map_app. simpl. now rewrite app_nil_r. Qed.

Lemma packed_append n m line p chunks cur :
  packed p chunks cur ->
  packed (if empty then append_entry m EmptyString (append_entry n line p)
          else append_entry n line p) chunks (cur ++ [line]).
Proof.
  intros (Hp & Hs & Hpg & Hc). unfold packed. rewrite (entries_snoc cur line).
  destruct empty; repeat split; simpl; auto; rewrite Hc; simpl;
    rewrite <- ?app_assoc; reflexivity.
Qed.

Lemma add_line_packed line p chunks cur :
  packed p chunks cur -> len line <= line_limit p ->
  exists p' chunks' cur',
    add_line line empty p = Ok p' /\ packed p' chunks' cur' /\
    line_limit p' = line_limit p /\
    concat chunks' ++ cur' = (concat chunks ++ cur) ++ [line].
Proof.
  intros Hinv Hle. unfold add_line.
  destruct (Z.gtb_spec (len line) (line_limit p)) as [Hgt | _]; [lia |].
  set (p1 := match max_lines p with
             | Some ml =>
                 let q := if _linecount p >=? ml then close_page (set_linecount 0 p) else p in
                 set_linecount (_linecount q + 1) q
             | None => p
             end).
  assert (H1 : exists chunks1 cur1, packed p1 chunks1 cur1 /\
             line_limit p1 = line_limit p /\
             concat chunks1 ++ cur1 = concat chunks ++ cur).
  { subst p1. destruct (max_lines p) as [ml |].
    - destruct (_linecount p >=? ml).
      + exists (chunks ++ [cur]), []. split; [| split].
        * apply packed_linecount, packed_close, packed_linecount, Hinv.
        * reflexivity.
        * rewrite concat_app. simpl. now rewrite !app_nil_r.
      + exists chunks, cur. split; [apply packed_linecount, Hinv | split; reflexivity].
    - exists chunks, cur. split; [exact Hinv | split; reflexivity]. }
  destruct H1 as (chunks1 & cur1 & Hinv1 & Hlim1 & Hcat1).
  set (p2 := if _count p1 + len line + 1 >? max_size p1 then close_page p1 else p1).
  assert (H2 : exists chunks2 cur2, packed p2 chunks2 cur2 /\
             line_limit p2 = line_limit p /\
             concat chunks2 ++ cur2 = concat chunks ++ cur).
  { subst p2. destruct (_count p1 + len line + 1 >? max_size p1).
    - exists (chunks1 ++ [cur1]), []. split; [| split].
      + apply packed_close, Hinv1.
      + exact Hlim1.
      + rewrite concat_app. simpl. now rewrite !app_nil_r.
    - exists chunks1, cur1. split; [exact Hinv1 | split; [exact Hlim1 | exact Hcat1]]. }
  destruct H2 as (chunks2 & cur2 & Hinv2 & Hlim2 & Hcat2).
  eexists _, chunks2, (cur2 ++ [line]). split; [reflexivity |]. split; [| split].
  - apply packed_append, Hinv2.
  - rewrite <- Hlim2. destruct empty; reflexivity.
  - now rewrite app_assoc, Hcat2.
Qed.

Lemma add_lines_packed lines : forall p chunks cur,
  packed p chunks cur ->
  Forall (fun line => len line <= line_limit p) lines ->
  exists p' chunks' cur',
    add_lines lines empty p = Ok p' /\ packed p' chunks' cur' /\
    concat chunks' ++ cur' = (concat chunks ++ cur) ++ lines.
Proof.
  induction lines as [| line rest IH]; intros p chunks cur Hinv Hall.
  - exists p, chunks, cur. simpl. now rewrite app_nil_r.
  - inversion Hall as [| ? ? Hline Hrest]; subst.
    destruct (add_line_packed line p chunks cur Hinv Hline)
      as (p1 & chunks1 & cur1 & Hadd & Hinv1 & Hlim & Hcat).
    destruct (IH p1 chunks1 cur1 Hinv1) as (p' & chunks' & cur' & Hrun & Hinv' & Hcat').
    { rewrite Hlim. exact Hrest. }
    exists p', chunks', cur'. simpl. rewrite Hadd. split; [exact Hrun |]. split; [exact Hinv' |].
    rewrite Hcat', Hcat, <- app_assoc. reflexivity.
Qed.

Lemma pages_packed p chunks cur :
  packed p chunks cur ->
  exists chunks', pages p = map (render pre suf empty) chunks' /\
                  concat chunks' = concat chunks ++ cur.
Proof.
  intros Hinv. unfold pages, flush.
  destruct cur as [| line cur].
  - destruct Hinv as (_ & _ & Hpg & Hc). rewrite Hc. simpl.
    exists chunks. now rewrite app_nil_r.
  - pose proof (packed_close _ _ _ Hinv) as (_ & _ & Hpg & _).
    destruct Hinv as (_ & _ & _ & Hc). rewrite Hc.
    replace (1 <? length (pre :: entries empty (line :: cur)))%nat with true.
    + exists (chunks ++ [line :: cur]). split; [exact Hpg |].
      rewrite concat_app. simpl. now rewrite app_nil_r.
    + symmetry. apply Nat.ltb_lt. destruct empty; simpl; lia.
Qed.

End Packing.

(** C7. Lines that fit the page limit are packed whole: every page
    [LinePaginator] produces is the rendering of a run of complete input lines,
    and the runs, put end to end, are the input sequence; a line over the
    limit makes [add_line] raise [RuntimeError] and leaves nothing truncated. *)
Theorem line_packing_keeps_lines_whole
    (pre suf : string) (ms : Z) (ml : option Z) (empty : bool) (lines : list string) :
  Forall (fun line => len line <= ms - len suf - len pre - 2) lines ->
  (exists p chunks,
      add_lines lines empty (LinePaginator_init pre suf ms ml) = Ok p /\
      pages p = map (render pre suf empty) chunks /\
      concat chunks = lines) /\
  (forall line p, len line > line_limit p ->
      add_line line empty p = Raise (RuntimeError (line_limit p))).
Proof.
  intros Hall. split.
  - destruct (add_lines_packed pre suf empty lines _ [] [] (packed_init pre suf empty ms ml))
      as (p & chunks & cur & Hrun & Hinv & Hcat).
    { exact Hall. }
    destruct (pages_packed pre suf empty p chunks cur Hinv) as (chunks' & Hpages & Hcat').
    exists p, chunks'. split; [exact Hrun |]. split; [exact Hpages |].
    rewrite Hcat'. exact Hcat.
  - intros line p Hgt. unfold add_line.
    destruct (Z.gtb_spec (len line) (line_limit p)); [reflexivity | lia].
Qed.

Lemma line_packing_keeps_lines_whole_witness :
  (exists p chunks,
      add_lines ["aaaa"; "bbbb"; "cc"]%string false
        (LinePaginator_init EmptyString EmptyString 12 None) = Ok p /\
      pages p = map (render EmptyString EmptyString false) chunks /\
      concat chunks = ["aaaa"; "bbbb"; "cc"]%string) /\
  (forall line p, len line > line_limit p ->
      add_line line false p = Raise (RuntimeError (line_limit p))).
Proof.
  apply (line_packing_keeps_lines_whole EmptyString EmptyString 12 None false).
  repeat constructor; vm_compute; discriminate.
Defined.

(** ** Neither loop catches a failed call *)

Lemma lets_through_and_then {S} (c : M S flow) k :
  lets_through c -> (forall p e, lets_through (k p e)) -> lets_through (and_then c k).
Proof.
  intros Hc Hk. apply lets_through_bind; [exact Hc |].
  intros [p e | p e |]; [apply Hk | apply lets_through_ret | apply lets_through_ret].
Qed.

Ltac lets_through :=
  repeat first
    [ apply lets_through_ret | apply lets_through_raise | apply lets_through_lift
    | apply lets_through_modify | apply lets_through_external
    | apply lets_through_and_then | apply lets_through_bind
    | match goal with
      | |- forall _, _ => intro
      | |- lets_through (if ?b then _ else _) => destruct b
      end ].










(** ** Runs in which every call goes through *)

Lemma py_index_ok {A} (l : list A) (i : Z) :
  0 <= i < Z.of_nat (length l) -> exists x, py_index l i = Ok x.
Proof.
  intros Hi. unfold py_index.
  destruct (Z.ltb_spec i 0) as [? | _]; [lia |].
  destruct (Z.ltb_spec i 0) as [? | _]; [lia |].
  destruct (Z.leb_spec (Z.of_nat (length l)) i) as [? | _]; [lia |]. simpl.
  destruct (nth_error l (Z.to_nat i)) as [x |] eqn:Hn; [now exists x |].
  apply nth_error_None in Hn. lia.
Qed.


Lemma quiet_call {S} (f : S -> S) :
  quiet (bind external (fun _ => modify f)) (fun _ => True).
Proof. eapply quiet_bind; [apply quiet_external | intros; apply quiet_modify]. Qed.

Lemma quiet_and_then {S} (c : M S flow) k (P Q : flow -> Prop) :
  quiet c P ->
  (forall p e, P (Fall p e) -> quiet (k p e) Q) ->
  (forall p e, P (Again p e) -> Q (Again p e)) ->
  (P Out -> Q Out) ->
  quiet (and_then c k) Q.
Proof.
  intros Hc Hk Hagain Hout. eapply quiet_bind; [exact Hc |].
  intros [p e | p e |] Hf; [now apply Hk | apply quiet_ret; now apply Hagain
                           | apply quiet_ret; now apply Hout].
Qed.

Section Quiet.
Variable pages : list string.
Let N : Z := Z.of_nat (length pages).


Lemma image_show_quiet images p em :
  length images = length pages ->
  0 <= p < N -> quiet (image_show pages images p em) (fun _ => True).
Proof.
  intros one_image_per_page Hp. destruct (py_index_ok pages p Hp) as [x Hx].
  destruct (py_index_ok images p) as [y Hy]; [rewrite one_image_per_page; exact Hp |].
  unfold image_show.
  eapply quiet_bind; [apply quiet_call |]. intros _ _.
  eapply quiet_bind; [apply (quiet_lift _ x Hx) |]. intros page _.
  eapply quiet_bind; [apply (quiet_lift _ y Hy) |]. intros img _.
  eapply quiet_bind; [apply quiet_call |]. intros _ _. now apply quiet_ret.
Qed.

(** A step of a branch that is not the reaction's: control falls through. *)
Lemma quiet_fall {S} p em : quiet (@ret S flow (Fall p em)) (fun f => f = Fall p em).
Proof. now apply quiet_ret. Qed.

Lemma quiet_again {S} p em : quiet (@ret S flow (Again p em)) (fun f => f = Again p em).
Proof. now apply quiet_ret. Qed.

Ltac fall_through :=
  repeat (eapply quiet_bind; [apply quiet_fall |]; intros ? ->).





(** ImagePaginator follows the table on every row but one: "last" away from
    the last page. *)
Lemma image_body_follows_table images r p em :
  length images = length pages ->
  0 <= p < N -> r <> LAST_EMOJI \/ p = N - 1 ->
  quiet (image_body pages images r p em)
        (fun f => page_after f = table_transition (N - 1) p r).
Proof.
  intros Himg Hp Hr. unfold image_body, and_then. fold N.
  eapply quiet_bind; [apply quiet_call |]. intros _ _.
  destruct r; simpl emoji_eqb; cbv iota.
  - (* first *)
    simpl. destruct (Z.eqb_spec p 0) as [-> | Hne]; simpl.
    + eapply quiet_bind; [apply quiet_again |]. intros f ->. now apply quiet_ret.
    + fall_through.
      eapply quiet_bind; [apply image_show_quiet; [exact Himg | lia] |]. intros embed _. now apply quiet_ret.
  - (* previous *)
    fall_through. simpl. destruct (Z.gtb_spec p 0); destruct (Z.leb_spec p 0); try lia.
    + fall_through.
      eapply quiet_bind; [apply image_show_quiet; [exact Himg | lia] |]. intros embed _. now apply quiet_ret.
    + eapply quiet_bind; [apply quiet_again |]. intros f ->. now apply quiet_ret.
  - (* next *)
    fall_through. simpl.
    destruct (Z.ltb_spec p (N - 1)); destruct (Z.geb_spec p (N - 1)); try lia.
    + fall_through.
      eapply quiet_bind; [apply image_show_quiet; [exact Himg | lia] |]. intros embed _. now apply quiet_ret.
    + eapply quiet_bind; [apply quiet_again |]. intros f ->. now apply quiet_ret.
  - (* last, on the last page *)
    destruct Hr as [Hr | ->]; [congruence |].
    fall_through. simpl. rewrite Z.eqb_refl. simpl.
    destruct (Z.geb_spec (N - 1) (N - 1)); [| lia].
    eapply quiet_bind; [apply quiet_again |]. intros f ->. now apply quiet_ret.
  - (* close *)
    now apply quiet_ret.
Qed.

(** "last" away from the last page: [len(paginator.pages - 1)] raises. *)
Lemma image_body_last_raises images p em m :
  p < N - 1 ->
  exists m', image_body pages images LAST_EMOJI p em (mkEnv m []) = (Raise TypeError, mkEnv m' []).
Proof.
  intros Hp. unfold image_body, and_then, remove_reaction, bind, external, modify. simpl.
  fold N. destruct (Z.geb_spec p (N - 1)); [lia |]. simpl. eauto.
Qed.

End Quiet.

(** ** A view of two pages *)

Definition two_pages : list string := ["one"; "two"]%string.
Definition two_images : list string := ["a.png"; "b.png"]%string.
Definition first_embed : Embed :=
  {| description := "one"; footer := Some (mkFooter None 1 2); image := Some "a.png"%string |}.
Definition fresh_message : Message :=
  {| shown := first_embed; controls := PAGINATION_EMOJI; consumed := [] |}.

(** C5. The transition table of section 4.3 asks that "last" on a page other
    than the last moves the view to page [L]. LinePaginator does so;
    ImagePaginator, on two pages and standing on the first, evaluates
    [len(paginator.pages - 1)] and leaves its loop with a TypeError, the view
    still on the first page. *)
Theorem image_last_event_raises_type_error :
  table_transition 1 0 LAST_EMOJI = Some 1 /\
  (exists embed m,
      line_body two_pages None LAST_EMOJI 0 first_embed (mkEnv fresh_message [])
      = (Ok (Fall 1 embed), m)) /\
  image_body two_pages two_images LAST_EMOJI 0 first_embed (mkEnv fresh_message [])
  = (Raise TypeError,
     mkEnv {| shown := first_embed; controls := PAGINATION_EMOJI; consumed := [LAST_EMOJI] |} []) /\
  fst (image_loop two_pages two_images [Reacted LAST_EMOJI; Reacted LEFT_EMOJI; TimedOut]
         0 first_embed (mkEnv fresh_message []))
  = Raise TypeError.
Proof.
  split; [reflexivity |]. split; [eexists _, _; reflexivity |]. split; reflexivity.
Qed.



End PaginationFacts.

Module RemindersFacts.
Import Py PyFacts Reminders.
Local Open Scope Z_scope.

(** ** The store and the schedule *)

Lemma stored_has_id (r : Reminder) (db : list Reminder) :
  In r db -> existsb (has_id (id_ r)) db = true.
Proof.
  intros Hin. apply existsb_exists. exists r. split; [exact Hin |].
  unfold has_id. apply Z.eqb_refl.
Qed.


Lemma others_survive_delete (k : Z) (r : Reminder) (db : list Reminder) :
  In r db -> id_ r <> k -> In r (List.filter (fun x => negb (has_id k x)) db).
Proof.
  intros Hin Hne. apply filter_In. split; [exact Hin |].
  unfold has_id. now destruct (Z.eqb_spec (id_ r) k).
Qed.

Lemma filter_all {A} (l : list A) : List.filter (fun _ => true) l = l.
Proof. induction l as [| x l IH]; simpl; [reflexivity | now rewrite IH]. Qed.

(** ** Recovery at startup *)

(** The notice an overdue reminder gets at recovery time [now]. *)
Definition late_notice (now : Z) (r : Reminder) : Sent :=
  ReminderNotice (channel_id r) (author r) (content r) (Some (now - expiration r)).

Definition after_late_fire (now : Z) (r : Reminder) (b : Bot) : Bot :=
  {| reminders_db := List.filter (fun x => negb (has_id (id_ r) x)) (reminders_db b);
     next_id := next_id b;
     scheduled_tasks := delete (id_ r) (scheduled_tasks b);
     sent := sent b ++ [late_notice now r] |}.

Lemma recover_overdue now r b :
  expiration r < now -> In r (reminders_db b) ->
  recover now r (mkEnv b []) = (Ok tt, mkEnv (after_late_fire now r b) []).
Proof.
  intros Hlate Hin. unfold recover.
  destruct (Z.ltb_spec (expiration r) now) as [_ | ?]; [| lia].
  unfold send_reminder, _delete_reminder, api_delete, deliver, cancel_task, truthy_delta.
  destruct (Z.eqb_spec (now - expiration r) 0) as [? | _]; [lia |].
  unfold bind, external, get, modify. simpl.
  rewrite (stored_has_id r _ Hin). reflexivity.
Qed.

Lemma recover_pending now r b :
  now <= expiration r -> scheduled_tasks b !! id_ r = None ->
  recover now r (mkEnv b [])
  = (Ok tt, mkEnv (set_scheduled (<[id_ r := r]> (scheduled_tasks b)) b) []).
Proof.
  intros Hnot Hfree. unfold recover.
  destruct (Z.ltb_spec (expiration r) now) as [? | _]; [lia |].
  unfold schedule_task, bind, get, modify. simpl. rewrite Hfree. reflexivity.
Qed.

Lemma recover_all now rs : forall b,
  List.NoDup (map id_ rs) ->
  (forall r, In r rs -> In r (reminders_db b)) ->
  (forall r, In r rs -> scheduled_tasks b !! id_ r = None) ->
  exists b',
    for_each rs (recover now) (mkEnv b []) = (Ok tt, mkEnv b' []) /\
    sent b' = sent b ++ map (late_notice now) (List.filter (fun r => expiration r <? now) rs) /\
    (forall r, In r rs -> expiration r < now -> scheduled_tasks b' !! id_ r = None) /\
    (forall r, In r rs -> now <= expiration r -> scheduled_tasks b' !! id_ r = Some r) /\
    (forall k, ~ In k (map id_ rs) -> scheduled_tasks b' !! k = scheduled_tasks b !! k).
Proof.
  induction rs as [| r0 rest IH]; intros b Hnd Hdb Hfree.
  - exists b. simpl. rewrite app_nil_r. repeat split; intros; tauto.
  - simpl in Hnd. apply List.NoDup_cons_iff in Hnd as [Hr0 Hnd].
    assert (Hother : forall r, In r rest -> id_ r <> id_ r0).
    { intros r Hin Heq. apply Hr0. rewrite <- Heq. now apply in_map. }
    destruct (Z.ltb_spec (expiration r0) now) as [Hlate | Hnot].
    + (* overdue: fired at once *)
      destruct (IH (after_late_fire now r0 b) Hnd) as (b' & Hrun & Hsent & Hover & Hpend & Hrest).
      { intros r Hin. simpl. apply others_survive_delete; [apply Hdb; now right | now apply Hother]. }
      { intros r Hin. simpl. rewrite lookup_delete_ne by (intros Heq; now apply (Hother r Hin)).
        apply Hfree. now right. }
      exists b'. simpl for_each. unfold bind at 1.
      rewrite (recover_overdue now r0 b Hlate (Hdb r0 (or_introl eq_refl))).
      split; [exact Hrun |]. split; [| split; [| split]].
      * rewrite Hsent. simpl List.filter.
        destruct (Z.ltb_spec (expiration r0) now); [| lia]. simpl.
        now rewrite <- app_assoc.
      * intros r [<- | Hin] Hl; [| now apply Hover].
        rewrite (Hrest _ Hr0). simpl. apply lookup_delete_eq.
      * intros r [<- | Hin] Hl; [lia | now apply Hpend].
      * intros k Hk. simpl in Hk. rewrite Hrest by tauto. simpl.
        apply lookup_delete_ne. tauto.
    + (* not yet due: handed to the scheduler *)
      pose proof (Hfree r0 (or_introl eq_refl)) as Hfree0.
      destruct (IH (set_scheduled (<[id_ r0 := r0]> (scheduled_tasks b)) b) Hnd)
        as (b' & Hrun & Hsent & Hover & Hpend & Hrest).
      { intros r Hin. simpl. apply Hdb. now right. }
      { intros r Hin. simpl. rewrite lookup_insert_ne by (intros Heq; now apply (Hother r Hin)).
        apply Hfree. now right. }
      exists b'. simpl for_each. unfold bind at 1.
      rewrite (recover_pending now r0 b Hnot Hfree0).
      split; [exact Hrun |]. split; [| split; [| split]].
      * rewrite Hsent. simpl List.filter.
        destruct (Z.ltb_spec (expiration r0) now); [lia | reflexivity].
      * intros r [<- | Hin] Hl; [lia | now apply Hover].
      * intros r [<- | Hin] Hl; [| now apply Hpend].
        rewrite (Hrest _ Hr0). simpl. apply lookup_insert_eq.
      * intros k Hk. simpl in Hk. rewrite Hrest by tauto. simpl.
        apply lookup_insert_ne. tauto.
Qed.

(** C3. Startup recovery, every call going through: each stored reminder whose
    deadline is already past is fired on the spot, once, with lateness
    [now - deadline], and never enters the scheduler; each reminder that is
    not yet due is handed to the scheduler under its id, deadline included. *)
Theorem on_ready_fires_overdue_and_schedules_pending (now : Z) (b : Bot) :
  List.NoDup (map id_ (reminders_db b)) ->
  scheduled_tasks b = ∅ ->
  exists b',
    on_ready now (mkEnv b []) = (Ok tt, mkEnv b' []) /\
    sent b' = sent b ++ map (late_notice now)
                          (List.filter (fun r => expiration r <? now) (reminders_db b)) /\
    (forall r, In r (reminders_db b) -> expiration r < now ->
               scheduled_tasks b' !! id_ r = None) /\
    (forall r, In r (reminders_db b) -> now <= expiration r ->
               scheduled_tasks b' !! id_ r = Some r).
Proof.
  intros Hnd Hempty.
  destruct (recover_all now (reminders_db b) b Hnd) as (b' & Hrun & Hsent & Hover & Hpend & _).
  { auto. }
  { intros r _. rewrite Hempty. apply lookup_empty. }
  exists b'. split; [| auto].
  unfold on_ready, api_get, bind, external, get, ret. simpl.
  rewrite filter_all. exact Hrun.
Qed.

(** ** A guild to run the cog in *)

Definition bot_channel : Z := 267659945086812160.
Definition verified_role : Z := 352427296948486144.

(** A member without a staff role, writing in the allow-listed channel. *)
Definition member : Context :=
  {| ctx_author := 1001; ctx_top_role := verified_role; ctx_channel := bot_channel |}.

Definition tea : Reminder := mkReminder 1 1001 bot_channel "tea" 50.
Definition call : Reminder := mkReminder 2 1001 bot_channel "call" 500.

(** The bot as it starts: two reminders stored, nothing scheduled yet. *)
Definition at_startup : Bot :=
  {| reminders_db := [tea; call]; next_id := 3; scheduled_tasks := ∅; sent := [] |}.

Lemma on_ready_fires_overdue_and_schedules_pending_witness :
  exists b',
    on_ready 100 (mkEnv at_startup []) = (Ok tt, mkEnv b' []) /\
    sent b' = sent at_startup ++ map (late_notice 100)
                (List.filter (fun r => expiration r <? 100) (reminders_db at_startup)) /\
    (forall r, In r (reminders_db at_startup) -> expiration r < 100 ->
               scheduled_tasks b' !! id_ r = None) /\
    (forall r, In r (reminders_db at_startup) -> 100 <= expiration r ->
               scheduled_tasks b' !! id_ r = Some r).
Proof.
  apply (on_ready_fires_overdue_and_schedules_pending 100 at_startup).
  - repeat constructor; simpl; intuition discriminate.
  - reflexivity.
Defined.

(** ** A failure during recovery *)






(** ** The fire action *)

(** The bot with [tea] stored and its timer live. *)
Definition tea_scheduled : Bot :=
  {| reminders_db := [tea]; next_id := 2;
     scheduled_tasks := {[ 1 := tea ]}; sent := [] |}.





(** ** Creating reminders *)

(** The reminders the site lists for the caller. *)
Definition active_of (ctx : Context) (b : Bot) : list Reminder :=
  List.filter (fun r => author r =? ctx_author ctx) (reminders_db b).

(** [n] reminders asked for in turn by the same member, starting with an
    empty store. *)
Definition nothing_stored : Bot :=
  {| reminders_db := []; next_id := 1; scheduled_tasks := ∅; sent := [] |}.

Definition create_in_turn (n : nat) : result unit * Env Bot :=
  for_each (seq 0 n)
    (fun i => new_reminder bot_channel member (1000 + Z.of_nat i) "note")
    (mkEnv nothing_stored []).

(** C1. [new_reminder] opens with a test on [STAFF_ROLES], a name the module
    binds nowhere. Whoever calls the command, in whatever channel and
    whatever the store holds, it raises NameError there: before the refusal
    notices, before the listing, before the write to the store and before
    [schedule_task]. A member without a staff role in the allow-listed
    channel who asks for reminders one at a time gets none: the first request
    already ends in the NameError, with nothing stored, nothing scheduled and
    nothing sent. *)
Theorem new_reminder_raises_name_error :
  (forall Channels_bot ctx expiration content w,
     new_reminder Channels_bot ctx expiration content w = (Raise NameError, w)) /\
  (forall n, exists w',
     create_in_turn (S n) = (Raise NameError, w') /\
     reminders_db (st w') = [] /\
     scheduled_tasks (st w') = ∅ /\
     sent (st w') = []).
Proof.
  split.
  - intros Channels_bot ctx expiration content w.
    unfold new_reminder, STAFF_ROLES, bind, raise. reflexivity.
  - intros n. eexists. unfold create_in_turn. simpl for_each.
    unfold bind at 1. unfold new_reminder at 1. unfold STAFF_ROLES, bind, raise.
    split; [reflexivity |]. repeat split.
Qed.

End RemindersFacts.

Module StarboardFacts.
Import Py PyFacts Starboard.
Local Open Scope Z_scope.

(** ** Operations that leave [star_msg_map] a dict *)

Definition keeps_dict {A} (c : M Bot A) : Prop :=
  forall w r w', is_dict (star_msg_map (st w)) = true -> c w = (r, w') ->
                 is_dict (star_msg_map (st w')) = true.

Lemma keeps_dict_ret {A} (a : A) : keeps_dict (ret a).
Proof. intros w r w' Hd [= <- <-]. exact Hd. Qed.

Lemma keeps_dict_raise {A} e : keeps_dict (@raise Bot A e).
Proof. intros w r w' Hd [= <- <-]. exact Hd. Qed.

Lemma keeps_dict_lift {A} (x : result A) : keeps_dict (@lift Bot A x).
Proof. destruct x; [apply keeps_dict_ret | apply keeps_dict_raise]. Qed.

Lemma keeps_dict_get : keeps_dict (@get Bot).
Proof. intros w r w' Hd [= <- <-]. exact Hd. Qed.

Lemma keeps_dict_external : keeps_dict (@external Bot).
Proof.
  intros w r w' Hd. unfold external.
  destruct (plan w) as [| [e |] rest]; intros [= <- <-]; exact Hd.
Qed.

Lemma keeps_dict_modify (f : Bot -> Bot) :
  (forall b, is_dict (star_msg_map b) = true -> is_dict (star_msg_map (f b)) = true) ->
  keeps_dict (modify f).
Proof. intros Hf w r w' Hd [= <- <-]. simpl. now apply Hf. Qed.

Lemma keeps_dict_bind {A B} (c : M Bot A) (k : A -> M Bot B) :
  keeps_dict c -> (forall a, keeps_dict (k a)) -> keeps_dict (bind c k).
Proof.
  intros Hc Hk w r w' Hd Hrun. unfold bind in Hrun.
  destruct (c w) as [[a | e] w1] eqn:Hcw.
  - eapply Hk; [eapply Hc; eassumption | exact Hrun].
  - injection Hrun as <- <-. eapply Hc; eassumption.
Qed.

Lemma keeps_dict_try_except {A} (c : M Bot A) handles h :
  keeps_dict c -> (forall e, keeps_dict (h e)) -> keeps_dict (try_except c handles h).
Proof.
  intros Hc Hh w r w' Hd Hrun. unfold try_except in Hrun.
  destruct (c w) as [[a | e] w1] eqn:Hcw.
  - injection Hrun as <- <-. eapply Hc; eassumption.
  - destruct (handles e).
    + eapply Hh; [eapply Hc; eassumption | exact Hrun].
    + injection Hrun as <- <-. eapply Hc; eassumption.
Qed.

Lemma keeps_dict_for_each {A} (l : list A) (body : A -> M Bot unit) :
  (forall x, keeps_dict (body x)) -> keeps_dict (for_each l body).
Proof.
  intros Hbody. induction l as [| x l IH]; simpl.
  - apply keeps_dict_ret.
  - apply keeps_dict_bind; [apply Hbody | intros _; exact IH].
Qed.

Lemma keeps_dict_cache_set k v : keeps_dict (cache_set k v).
Proof.
  intros w r w' Hd. unfold cache_set, bind, get, lift, modify, ret, raise. simpl.
  destruct (star_msg_map (st w)) as [d | l]; [| discriminate].
  simpl. intros [= <- <-]. reflexivity.
Qed.

Lemma keeps_dict_cache_del k : keeps_dict (cache_del k).
Proof.
  intros w r w' Hd. unfold cache_del, bind, get, lift, modify, ret, raise. simpl.
  destruct (star_msg_map (st w)) as [d | l] eqn:Hm; [| discriminate].
  simpl. destruct (d !! k); simpl; intros [= <- <-]; simpl; rewrite ?Hm; reflexivity.
Qed.

Ltac keeps_dict :=
  repeat first
    [ apply keeps_dict_ret | apply keeps_dict_raise | apply keeps_dict_get
    | apply keeps_dict_external | apply keeps_dict_lift
    | apply keeps_dict_cache_set | apply keeps_dict_cache_del
    | apply keeps_dict_modify; intros ? ?; assumption
    | apply keeps_dict_bind | apply keeps_dict_try_except | apply keeps_dict_for_each
    | match goal with
      | |- forall _, _ => intro
      | |- keeps_dict (if ?c then _ else _) => destruct c
      | |- keeps_dict (match ?x with _ => _ end) => destruct x
      end ].

Lemma keeps_dict_async_init : keeps_dict async_init.
Proof. unfold async_init, site_get_all. keeps_dict. Qed.

Lemma keeps_dict_post_to_api original star_msg : keeps_dict (post_to_api original star_msg).
Proof. unfold post_to_api, site_post, delete_message. keeps_dict. Qed.

Lemma keeps_dict_post_new_entry bot_user original starboard :
  keeps_dict (post_new_entry bot_user original starboard).
Proof.
  unfold post_new_entry, send. keeps_dict; apply keeps_dict_post_to_api.
Qed.

Lemma keeps_dict_change_starcount starboard original star_msg count :
  keeps_dict (change_starcount starboard original star_msg count).
Proof.
  unfold change_starcount, edit, site_get. keeps_dict; apply keeps_dict_post_to_api.
Qed.

Lemma keeps_dict_delete_star original star : keeps_dict (delete_star original star).
Proof. unfold delete_star, delete_message, site_delete. keeps_dict. Qed.

(** ** A guild with one starred message *)

Definition guild : Z := 10.
Definition starboard_channel : Z := 20.
Definition general : Z := 30.
Definition the_bot : Z := 1.

(** A message with three stars, and the starboard message that shows it. *)
Definition starred : Msg := mkMsg 500 general 7 (Plain "well said") (Some 3).
Definition on_board : Msg := mkMsg 900 starboard_channel the_bot (StarLine 2 LVL1_STAR general) None.
Definition row : Entry := mkEntry 500 900 general 7.
Definition star_added : Payload := mkPayload guild general 500 (StarEmoji LVL1_STAR).

(** The site knows the entry; the local map has lost it. *)
Definition stale : Bot :=
  {| star_msg_map := PyDict ∅;
     site_entries := {[ 500 := row ]};
     site_up := true;
     messages := {[ 500 := starred; 900 := on_board ]};
     next_message := 901 |}.

(** The claim of C8 at a concrete miss: [get_messages] finds the starboard
    message through the site and returns it, and the local map is as empty
    after the call as before. *)
Lemma get_messages_does_not_backfill :
  exists w',
    get_messages star_added (Some starboard_channel) (mkEnv stale [])
    = (Ok (starred, Some on_board), w') /\
    star_msg_map (st w') = PyDict ∅ /\
    getitem (star_msg_map (st w')) 500 = Raise KeyError.
Proof. eexists. split; [vm_compute; reflexivity | split; reflexivity]. Qed.

(** On a miss of the local map for a message the site has an entry for,
    [get_messages] asks the site and returns the entry's starboard message;
    the bot, the local map included, is as it was. *)
Lemma get_messages_served_by_site
    (b : Bot) (d : gmap Z Z) (payload : Payload) (starboard : Z)
    (original star_msg : Msg) (entry : Entry) :
  star_msg_map b = PyDict d ->
  d !! payload_message_id payload = None ->
  site_up b = true ->
  site_entries b !! payload_message_id payload = Some entry ->
  messages b !! payload_message_id payload = Some original ->
  msg_channel original = channel_id payload ->
  messages b !! bot_message_id entry = Some star_msg ->
  msg_channel star_msg = starboard ->
  get_messages payload (Some starboard) (mkEnv b [])
  = (Ok (original, Some star_msg), mkEnv b []).
Proof.
  intros Hmap Hmiss Hup Hsite Horig Hoch Hstar Hsch.
  unfold get_messages, get_message, site_get, try_except, bind, external, get, lift, ret, raise.
  simpl. rewrite Horig, Hoch, Z.eqb_refl. simpl.
  rewrite Hmap. simpl. rewrite Hmiss. simpl.
  rewrite Hup, Hsite. simpl. rewrite Hstar, Hsch, Z.eqb_refl. reflexivity.
Qed.

(** [change_starcount] on the pair [get_messages] has returned: after the
    edit the map holds message id to starboard id. *)
Lemma change_starcount_backfills
    (b : Bot) (d : gmap Z Z) (starboard : Z) (original star_msg : Msg) (entry : Entry)
    (count : Z) :
  star_msg_map b = PyDict d ->
  d !! msg_id original = None ->
  site_up b = true ->
  site_entries b !! msg_id original = Some entry ->
  messages b !! bot_message_id entry = Some star_msg ->
  msg_id star_msg = bot_message_id entry ->
  exists b',
    change_starcount starboard original star_msg count (mkEnv b []) = (Ok tt, mkEnv b' []) /\
    star_msg_map b' = PyDict (<[msg_id original := bot_message_id entry]> d).
Proof.
  intros Hmap Hmiss Hup Hsite Hstar Hsid.
  unfold change_starcount, edit, cache_set, site_get, try_except, bind, external, get,
    modify, lift, ret, raise.
  simpl. rewrite Hsid, Hstar. simpl. rewrite Hmap. simpl.
  rewrite Hmiss. simpl. rewrite Hmap. simpl. rewrite Hup, Hsite. simpl.
  eexists. split; reflexivity.
Qed.

(** C8, as the code has it. On a miss of the local map for a message the site
    has an entry for, [get_messages] asks the site and returns the entry's
    starboard message, not "none", and leaves the bot, the local map
    included, as it was. The mapping is written further on in the reaction
    handlers: with the star count at or above the threshold, both
    [on_raw_reaction_add] and [on_raw_reaction_remove] go from [get_messages]
    to [change_starcount], and when the handler has returned the map holds
    message id to starboard id. *)
Theorem cache_miss_is_served_by_site_and_backfilled_on_update
    (Guild_id Channels_starboard bot_user : Z)
    (b : Bot) (d : gmap Z Z) (payload : Payload)
    (original star_msg : Msg) (entry : Entry) (count : Z) :
  star_msg_map b = PyDict d ->
  d !! payload_message_id payload = None ->
  site_up b = true ->
  site_entries b !! payload_message_id payload = Some entry ->
  messages b !! payload_message_id payload = Some original ->
  msg_id original = payload_message_id payload ->
  msg_channel original = channel_id payload ->
  messages b !! bot_message_id entry = Some star_msg ->
  msg_id star_msg = bot_message_id entry ->
  msg_channel star_msg = Channels_starboard ->
  guild_id payload = Guild_id ->
  emoji payload = StarEmoji LVL1_STAR ->
  channel_id payload <> Channels_starboard ->
  stars original = Some count ->
  THRESHOLDS LVL1_STAR <= count ->
  get_messages payload (Some Channels_starboard) (mkEnv b [])
  = (Ok (original, Some star_msg), mkEnv b []) /\
  (exists b',
     on_raw_reaction_add Guild_id Channels_starboard bot_user payload (Some Channels_starboard)
       (mkEnv b [])
     = (Ok tt, mkEnv b' []) /\
     star_msg_map b' = PyDict (<[payload_message_id payload := bot_message_id entry]> d)) /\
  (exists b',
     on_raw_reaction_remove Guild_id payload (Some Channels_starboard) (mkEnv b [])
     = (Ok tt, mkEnv b' []) /\
     star_msg_map b' = PyDict (<[payload_message_id payload := bot_message_id entry]> d)).
Proof.
  intros Hmap Hmiss Hup Hsite Horig Hoid Hoch Hstar Hsid Hsch Hguild Hemoji Hnot Hstars Hcount.
  pose proof (get_messages_served_by_site b d payload Channels_starboard original star_msg entry
                Hmap Hmiss Hup Hsite Horig Hoch Hstar Hsch) as Hget.
  assert (Hmeets : (count <? THRESHOLDS LVL1_STAR) = false) by (apply Z.ltb_ge; exact Hcount).
  rewrite <- Hoid in Hmiss, Hsite |- *.
  destruct (change_starcount_backfills b d Channels_starboard original star_msg entry count
              Hmap Hmiss Hup Hsite Hstar Hsid) as (b' & Hrun & Hmap').
  split; [exact Hget |]. split.
  - exists b'. split; [| exact Hmap'].
    unfold on_raw_reaction_add. rewrite Hguild, Z.eqb_refl, Hemoji. cbn [negb].
    destruct (Z.eqb_spec (channel_id payload) Channels_starboard) as [? | _]; [contradiction |].
    unfold bind at 1. unfold try_except at 1. unfold bind at 1. rewrite Hget.
    unfold ret at 1. cbv beta iota. rewrite Hstars, Hmeets. exact Hrun.
  - exists b'. split; [| exact Hmap'].
    unfold on_raw_reaction_remove. rewrite Hguild, Z.eqb_refl. cbn [negb].
    unfold bind at 1. unfold try_except at 1. unfold bind at 1. rewrite Hget.
    unfold ret at 1. cbv beta iota. rewrite Hstars, Hmeets. exact Hrun.
Qed.

Lemma cache_miss_is_served_by_site_and_backfilled_on_update_witness :
  get_messages star_added (Some starboard_channel) (mkEnv stale [])
  = (Ok (starred, Some on_board), mkEnv stale []) /\
  (exists b',
     on_raw_reaction_add guild starboard_channel the_bot star_added (Some starboard_channel)
       (mkEnv stale [])
     = (Ok tt, mkEnv b' []) /\
     star_msg_map b' = PyDict (<[payload_message_id star_added := bot_message_id row]> ∅)) /\
  (exists b',
     on_raw_reaction_remove guild star_added (Some starboard_channel) (mkEnv stale [])
     = (Ok tt, mkEnv b' []) /\
     star_msg_map b' = PyDict (<[payload_message_id star_added := bot_message_id row]> ∅)).
Proof.
  apply (cache_miss_is_served_by_site_and_backfilled_on_update
           guild starboard_channel the_bot stale ∅ star_added starred on_board row 3);
    try reflexivity.
  - discriminate.
  - discriminate.
Defined.

(** ** The wipe command *)

(** The bot in step with the site. *)
Definition in_step : Bot :=
  {| star_msg_map := PyDict {[ 500 := 900 ]};
     site_entries := {[ 500 := row ]};
     site_up := true;
     messages := {[ 500 := starred; 900 := on_board ]};
     next_message := 901 |}.

(** A second message that collects two stars after the wipe. *)
Definition fresh : Msg := mkMsg 501 general 8 (Plain "agreed") (Some 2).
Definition fresh_starred : Payload := mkPayload guild general 501 (StarEmoji LVL1_STAR).

Definition after_wipe : Env Bot :=
  snd (delete_all_star_entries the_bot general SaidYes (mkEnv in_step [])).

Definition after_wipe_with_fresh : Env Bot :=
  mkEnv (set_messages (<[501 := fresh]> (messages (st after_wipe))) (st after_wipe)) [].

(** C9. The wipe command, confirmed by its owner and answered 200 by the
    site, binds [star_msg_map] to a list. The map is no dict any more: the
    keyed insertion of [post_new_entry] and the keyed lookup of [get_messages]
    on it raise IndexError, which the reaction handler does not catch. *)
Theorem wipe_turns_star_msg_map_into_list :
  fst (delete_all_star_entries the_bot general SaidYes (mkEnv in_step [])) = Ok tt /\
  star_msg_map (st after_wipe) = PyList [] /\
  is_dict (star_msg_map (st after_wipe)) = false /\
  setitem (star_msg_map (st after_wipe)) 501 902 = Raise IndexError /\
  fst (post_new_entry the_bot fresh starboard_channel after_wipe_with_fresh) = Raise IndexError /\
  fst (get_messages fresh_starred (Some starboard_channel) after_wipe_with_fresh)
  = Raise IndexError /\
  fst (on_raw_reaction_add guild starboard_channel the_bot fresh_starred
         (Some starboard_channel) after_wipe_with_fresh)
  = Raise IndexError.
Proof. vm_compute. repeat split. Qed.

End StarboardFacts.

Module SyncFacts.
Import Py Sync.
Local Open Scope Z_scope.

(** C10. A member-remove event makes the cog issue one request, a PUT on the
    member's own user record, and the record it sends says [in_guild] is
    true; when the update goes through, that is what the site then holds for
    the member who left. *)
Theorem member_remove_writes_in_guild_true (member : Member) (w : Env Site) :
  exists json,
    requests (st (snd (on_member_remove member w)))
    = requests (st w) ++ [Put (member_id member) json] /\
    json_id json = member_id member /\
    in_guild json = true /\
    (fst (on_member_remove member w) = Ok tt ->
     users (st (snd (on_member_remove member w))) !! member_id member = Some json).
Proof.
  eexists. unfold on_member_remove, api_put, bind, external, get, modify, raise.
  destruct w as [s pl]. simpl.
  destruct pl as [| [e |] rest]; simpl;
    try (destruct (users s !! member_id member) eqn:Hu); simpl;
    (split; [reflexivity | split; [reflexivity | split; [reflexivity |]]]);
    intros Hok; try discriminate; apply lookup_insert_eq.
Qed.

End SyncFacts.

(* ===================================================================== *)
(** * Further facts: page bounds of LinePaginator                         *)
(* ===================================================================== *)

Module PackingBounds.
Import Py Pagination PaginationFacts.
Local Open Scope Z_scope.

(** ** Lengths of rendered pages *)

Lemma length_append (s t : string) :
  String.length (s ++ t) = (String.length s + String.length t)%nat.
Proof. induction s as [| c s IH]; simpl; [reflexivity | now rewrite IH]. Qed.

(** What [_count] adds up: every entry and the newline after it. *)
Definition count_of (parts : list string) : Z :=
  fold_right (fun part acc => len part + 1 + acc) 0 parts.

Lemma count_of_app (xs ys : list string) : count_of (xs ++ ys) = count_of xs + count_of ys.
Proof. induction xs as [| x xs IH]; simpl; [reflexivity | rewrite IH; lia]. Qed.

Lemma len_join_lines (parts : list string) :
  parts <> [] -> len (join_lines parts) = count_of parts - 1.
Proof.
  induction parts as [| x [| y rest] IH]; intros Hne; [congruence | |].
  { unfold join_lines, count_of, len. simpl. lia. }
  specialize (IH ltac:(discriminate)).
  change (join_lines (x :: y :: rest)) with (x ++ newline ++ join_lines (y :: rest))%string.
  unfold len in *. rewrite !length_append.
  change (String.length newline) with 1%nat.
  change (count_of (x :: y :: rest)) with (len x + 1 + count_of (y :: rest)).
  unfold len. lia.
Qed.

(** A page is as long as [_count] said, plus the suffix. *)
Lemma len_closed_page (p : LinePaginator) :
  _count p = count_of (_current_page p) ->
  len (join_lines (_current_page p ++ [suffix p])) = _count p + len (suffix p).
Proof.
  intros Hc. rewrite len_join_lines by (destruct (_current_page p); discriminate).
  rewrite count_of_app, Hc. simpl. lia.
Qed.

(** The blank entry [empty] adds is counted after the size check. *)
Definition slack (empty : bool) : Z := if empty then 1 else 0.

(** The count is exact and in bounds, and so is every page closed so far. *)
Definition counted (empty : bool) (p : LinePaginator) : Prop :=
  _count p = count_of (_current_page p) /\
  _count p <= max_size p + slack empty /\
  Forall (fun page => len page <= max_size p + len (suffix p) + slack empty) (_pages p).

Lemma counted_close empty p :
  counted empty p -> 0 <= line_limit p -> counted empty (close_page p).
Proof.
  intros (Hc & Hb & Hp) Hl. unfold line_limit in Hl. repeat split; simpl.
  - lia.
  - unfold slack. destruct empty; lia.
  - apply Forall_app. split; [exact Hp |]. constructor; [| constructor].
    rewrite len_closed_page by exact Hc. lia.
Qed.

Lemma counted_linecount empty n p : counted empty p -> counted empty (set_linecount n p).
Proof. intros H. exact H. Qed.

Lemma add_line_counted empty line p :
  counted empty p -> len line <= line_limit p ->
  exists p', add_line line empty p = Ok p' /\ counted empty p' /\
             max_size p' = max_size p /\ prefix p' = prefix p /\ suffix p' = suffix p.
Proof.
  intros Hk Hle.
  assert (Hl : 0 <= line_limit p) by (unfold len in Hle; lia).
  unfold add_line.
  destruct (Z.gtb_spec (len line) (line_limit p)) as [? | _]; [lia |].
  set (p1 := match max_lines p with
             | Some ml =>
                 let q := if _linecount p >=? ml then close_page (set_linecount 0 p) else p in
                 set_linecount (_linecount q + 1) q
             | None => p
             end).
  assert (H1 : counted empty p1 /\ max_size p1 = max_size p /\ prefix p1 = prefix p /\
               suffix p1 = suffix p).
  { subst p1. destruct (max_lines p) as [ml |]; [| now auto].
    destruct (_linecount p >=? ml); [| now auto].
    split; [| now auto]. apply counted_linecount, counted_close; [| exact Hl].
    apply counted_linecount, Hk. }
  destruct H1 as (Hk1 & Hm1 & Hp1 & Hs1).
  assert (Hl1 : line_limit p1 = line_limit p) by (unfold line_limit; now rewrite Hm1, Hp1).
  set (p2 := if _count p1 + len line + 1 >? max_size p1 then close_page p1 else p1).
  assert (H2 : counted empty p2 /\ _count p2 + len line + 1 <= max_size p2 /\
               max_size p2 = max_size p /\ prefix p2 = prefix p /\ suffix p2 = suffix p).
  { subst p2. destruct (Z.gtb_spec (_count p1 + len line + 1) (max_size p1)) as [Hgt | Hfit].
    - split; [apply counted_close; [exact Hk1 | now rewrite Hl1] |].
      split; [| now auto]. simpl. unfold line_limit in Hle. rewrite Hp1, Hm1. lia.
    - now auto. }
  destruct H2 as ((Hc2 & Hb2 & Hpg2) & Hfit2 & Hm2 & Hp2 & Hs2).
  eexists. split; [reflexivity |].
  destruct empty; (split; [| simpl; now auto]); unfold counted, slack in *; simpl;
    (split; [rewrite ?count_of_app, Hc2; simpl; change (len EmptyString) with 0; lia
            | split; [lia | exact Hpg2]]).
Qed.

Lemma add_lines_counted empty lines : forall p,
  counted empty p -> Forall (fun line => len line <= line_limit p) lines ->
  exists p', add_lines lines empty p = Ok p' /\ counted empty p' /\
             max_size p' = max_size p /\ suffix p' = suffix p.
Proof.
  induction lines as [| line rest IH]; intros p Hk Hall.
  - exists p. auto.
  - inversion Hall as [| ? ? Hline Hrest]; subst.
    destruct (add_line_counted empty line p Hk Hline) as (p1 & Hadd & Hk1 & Hm1 & Hp1 & Hs1).
    destruct (IH p1 Hk1) as (p' & Hrun & Hk' & Hm' & Hs').
    { unfold line_limit in *. rewrite Hm1, Hp1. exact Hrest. }
    exists p'. simpl. rewrite Hadd. split; [exact Hrun |]. split; [exact Hk' |].
    split; congruence.
Qed.

(** X1. A page never outgrows the configured size by more than the blank
    entry: when every line fits the line limit, each page [LinePaginator]
    renders is at most [max_size] characters long, or [max_size + 1] when
    [empty] is set (the blank entry added after a line is counted after the
    size check). *)
Theorem pages_fit_max_size
    (pre suf : string) (ms : Z) (ml : option Z) (empty : bool) (lines : list string) :
  Forall (fun line => len line <= ms - len suf - len pre - 2) lines ->
  exists p,
    add_lines lines empty (LinePaginator_init pre suf ms ml) = Ok p /\
    Forall (fun page => len page <= ms + (if empty then 1 else 0)) (pages p).
Proof.
  intros Hall. destruct lines as [| line rest].
  - eexists. split; [reflexivity |]. constructor.
  - assert (Hroom : len pre + 2 <= ms - len suf).
    { inversion Hall; subst. unfold len in *. lia. }
    destruct (add_lines_counted empty (line :: rest) (LinePaginator_init pre suf ms ml))
      as (p & Hrun & (Hc & Hb & Hpg) & Hm & Hs).
    { repeat split; simpl; [lia | unfold slack; destruct empty; lia | constructor]. }
    { exact Hall. }
    exists p. split; [exact Hrun |].
    simpl in Hm, Hs. rewrite Hm, Hs in Hpg. unfold slack in *.
    unfold pages, flush. destruct (1 <? length (_current_page p))%nat.
    + simpl. apply Forall_app. split.
      * eapply List.Forall_impl; [| exact Hpg]. simpl. intros page Hpage. lia.
      * constructor; [| constructor]. rewrite len_closed_page by exact Hc.
        rewrite Hs. rewrite Hm in Hb. lia.
    + eapply List.Forall_impl; [| exact Hpg]. simpl. intros page Hpage. lia.
Qed.

Lemma pages_fit_max_size_witness :
  exists p,
    add_lines ["aaaa"; "bbbb"; "cc"]%string true
      (LinePaginator_init EmptyString EmptyString 12 None) = Ok p /\
    Forall (fun page => len page <= 12 + 1) (pages p).
Proof.
  apply (pages_fit_max_size EmptyString EmptyString 12 None true).
  repeat constructor; vm_compute; discriminate.
Defined.

(** The bound with [empty] set is reached: one line of four characters and a
    size of six give a page of seven. *)
Example blank_entry_overshoots :
  paginate_pack ["aaaa"%string] EmptyString EmptyString None 6 true false
  = Ok [join_lines [EmptyString; "aaaa"; EmptyString; EmptyString]%string] /\
  len (join_lines [EmptyString; "aaaa"; EmptyString; EmptyString]%string) = 7.
Proof. split; reflexivity. Qed.

(** ** Lines per page *)

(** With [max_lines] set to [ml]: the page being collected holds no more
    lines than [_linecount] says, and no page holds more than [ml] (one, when
    [ml] is smaller than that). *)
Definition lined (ml : Z) (p : LinePaginator) (chunks : list (list string))
    (cur : list string) : Prop :=
  max_lines p = Some ml /\
  Z.of_nat (length cur) <= _linecount p <= Z.max ml 1 /\
  Forall (fun chunk => Z.of_nat (length chunk) <= Z.max ml 1) chunks.

Lemma add_line_lined pre suf empty ml line p chunks cur :
  packed pre suf empty p chunks cur -> lined ml p chunks cur ->
  len line <= line_limit p ->
  exists p' chunks' cur',
    add_line line empty p = Ok p' /\
    packed pre suf empty p' chunks' cur' /\ lined ml p' chunks' cur' /\
    line_limit p' = line_limit p /\
    concat chunks' ++ cur' = (concat chunks ++ cur) ++ [line].
Proof.
  intros Hinv (Hml & Hlc & Hch) Hle. unfold add_line.
  destruct (Z.gtb_spec (len line) (line_limit p)) as [? | _]; [lia |].
  rewrite Hml.
  set (q := if _linecount p >=? ml then close_page (set_linecount 0 p) else p).
  set (p1 := set_linecount (_linecount q + 1) q).
  assert (H1 : exists chunks1 cur1,
             packed pre suf empty p1 chunks1 cur1 /\ max_lines p1 = Some ml /\
             Z.of_nat (length cur1) + 1 <= _linecount p1 <= Z.max ml 1 /\
             Forall (fun chunk => Z.of_nat (length chunk) <= Z.max ml 1) chunks1 /\
             line_limit p1 = line_limit p /\
             concat chunks1 ++ cur1 = concat chunks ++ cur).
  { subst p1 q. destruct (Z.geb_spec (_linecount p) ml) as [Hfull | Hroom].
    - exists (chunks ++ [cur]), [].
      split; [apply packed_linecount, packed_close, packed_linecount, Hinv |].
      split; [exact Hml |]. split; [simpl; lia |].
      split; [apply Forall_app; split; [exact Hch | constructor; [lia | constructor]] |].
      split; [reflexivity |]. rewrite concat_app. simpl. now rewrite !app_nil_r.
    - exists chunks, cur.
      split; [apply packed_linecount, Hinv |].
      split; [exact Hml |]. split; [simpl; lia |]. auto. }
  destruct H1 as (chunks1 & cur1 & Hinv1 & Hml1 & Hlc1 & Hch1 & Hlim1 & Hcat1).
  set (p2 := if _count p1 + len line + 1 >? max_size p1 then close_page p1 else p1).
  assert (H2 : exists chunks2 cur2,
             packed pre suf empty p2 chunks2 cur2 /\ max_lines p2 = Some ml /\
             Z.of_nat (length cur2) + 1 <= _linecount p2 <= Z.max ml 1 /\
             Forall (fun chunk => Z.of_nat (length chunk) <= Z.max ml 1) chunks2 /\
             line_limit p2 = line_limit p /\
             concat chunks2 ++ cur2 = concat chunks ++ cur).
  { subst p2. destruct (_count p1 + len line + 1 >? max_size p1).
    - exists (chunks1 ++ [cur1]), []. split; [apply packed_close, Hinv1 |].
      split; [exact Hml1 |]. split; [simpl in Hlc1 |- *; lia |].
      split; [apply Forall_app; split; [exact Hch1 | constructor; [lia | constructor]] |].
      split; [exact Hlim1 |]. rewrite concat_app. simpl. now rewrite !app_nil_r.
    - exists chunks1, cur1. auto 10. }
  destruct H2 as (chunks2 & cur2 & Hinv2 & Hml2 & Hlc2 & Hch2 & Hlim2 & Hcat2).
  eexists _, chunks2, (cur2 ++ [line]). split; [reflexivity |].
  split; [apply packed_append, Hinv2 |].
  split; [| split].
  - unfold lined. rewrite length_app. destruct empty; simpl; (split; [exact Hml2 |]);
      (split; [lia | exact Hch2]).
  - rewrite <- Hlim2. destruct empty; reflexivity.
  - now rewrite app_assoc, Hcat2.
Qed.

Lemma add_lines_lined pre suf empty ml lines : forall p chunks cur,
  packed pre suf empty p chunks cur -> lined ml p chunks cur ->
  Forall (fun line => len line <= line_limit p) lines ->
  exists p' chunks' cur',
    add_lines lines empty p = Ok p' /\
    packed pre suf empty p' chunks' cur' /\ lined ml p' chunks' cur' /\
    concat chunks' ++ cur' = (concat chunks ++ cur) ++ lines.
Proof.
  induction lines as [| line rest IH]; intros p chunks cur Hinv Hl Hall.
  - exists p, chunks, cur. simpl. now rewrite app_nil_r.
  - inversion Hall as [| ? ? Hline Hrest]; subst.
    destruct (add_line_lined pre suf empty ml line p chunks cur Hinv Hl Hline)
      as (p1 & chunks1 & cur1 & Hadd & Hinv1 & Hl1 & Hlim & Hcat).
    destruct (IH p1 chunks1 cur1 Hinv1 Hl1) as (p' & chunks' & cur' & Hrun & Hinv' & Hl' & Hcat').
    { rewrite Hlim. exact Hrest. }
    exists p', chunks', cur'. simpl. rewrite Hadd. split; [exact Hrun |].
    split; [exact Hinv' |]. split; [exact Hl' |].
    rewrite Hcat', Hcat, <- app_assoc. reflexivity.
Qed.

(** X2. [max_lines] is kept: with [max_lines = ml] no page holds more than
    [ml] of the input lines (one line, when [ml] is below one), whatever the
    size check does in between. *)
Theorem pages_hold_at_most_max_lines
    (pre suf : string) (ms ml : Z) (empty : bool) (lines : list string) :
  Forall (fun line => len line <= ms - len suf - len pre - 2) lines ->
  exists p chunks,
    add_lines lines empty (LinePaginator_init pre suf ms (Some ml)) = Ok p /\
    pages p = map (render pre suf empty) chunks /\
    concat chunks = lines /\
    Forall (fun chunk => Z.of_nat (length chunk) <= Z.max ml 1) chunks.
Proof.
  intros Hall.
  destruct (add_lines_lined pre suf empty ml lines
              (LinePaginator_init pre suf ms (Some ml)) [] [])
    as (p & chunks & cur & Hrun & Hinv & (Hml & Hlc & Hch) & Hcat).
  { apply packed_init. }
  { repeat split; simpl; try lia. constructor. }
  { exact Hall. }
  exists p. unfold pages, flush. destruct cur as [| line cur].
  - exists chunks. destruct Hinv as (_ & _ & Hpg & Hc). rewrite Hc. simpl.
    rewrite app_nil_r in Hcat. auto.
  - exists (chunks ++ [line :: cur]).
    pose proof (packed_close _ _ _ _ _ _ Hinv) as (_ & _ & Hpg & _).
    destruct Hinv as (_ & _ & _ & Hc). rewrite Hc.
    replace (1 <? length (pre :: entries empty (line :: cur)))%nat with true
      by (symmetry; apply Nat.ltb_lt; destruct empty; simpl; lia).
    split; [exact Hrun |]. split; [exact Hpg |]. split.
    + rewrite concat_app. simpl. now rewrite app_nil_r.
    + apply Forall_app. split; [exact Hch |]. constructor; [lia | constructor].
Qed.

Lemma pages_hold_at_most_max_lines_witness :
  exists p chunks,
    add_lines ["a"; "b"; "c"; "d"]%string true
      (LinePaginator_init EmptyString EmptyString 500 (Some 3)) = Ok p /\
    pages p = map (render EmptyString EmptyString true) chunks /\
    concat chunks = ["a"; "b"; "c"; "d"]%string /\
    Forall (fun chunk => Z.of_nat (length chunk) <= Z.max 3 1) chunks.
Proof.
  apply (pages_hold_at_most_max_lines EmptyString EmptyString 500 3 true).
  repeat constructor; vm_compute; discriminate.
Defined.

End PackingBounds.

(* ===================================================================== *)
(** * Further facts: sending and driving the view                         *)
(* ===================================================================== *)

Module PaginateFacts.
Import Py PyFacts Pagination PaginationFacts.
Local Open Scope Z_scope.

(** ** There is always a first page *)







(** ** The view follows the page index *)

(** The message shows the loop's embed, and the embed holds the page the
    index points to. *)
Definition synced (pages : list string) (p : Z) (m : Message) (em : Embed) : Prop :=
  shown m = em /\ py_index pages p = Ok (description em).

Ltac run_loop_body :=
  unfold line_body, and_then, remove_reaction, line_show, edit, clear_reactions,
    bind, external, modify, lift, ret, raise; simpl.

Lemma line_body_keeps_synced pages ft r p em m :
  0 <= p < Z.of_nat (length pages) ->
  synced pages p m em ->
  exists f m',
    line_body pages ft r p em (mkEnv m []) = (Ok f, mkEnv m' []) /\
    controls m' = controls m /\
    match f with
    | Out => m' = m
    | Fall p' em' | Again p' em' =>
        0 <= p' < Z.of_nat (length pages) /\ synced pages p' m' em'
    end.
Proof.
  intros Hp Hsync.
  destruct r.
  - (* first *)
    destruct (py_index_ok pages 0) as [x Hx]; [lia |].
    run_loop_body. rewrite Hx. simpl.
    eexists _, _. split; [reflexivity |]. split; [reflexivity |].
    split; [lia |]. split; [reflexivity | exact Hx].
  - (* previous *)
    run_loop_body. destruct (Z.leb_spec p 0) as [Hle | Hgt]; simpl.
    + eexists _, _. split; [reflexivity |]. split; [reflexivity |].
      split; [lia |]. destruct Hsync as [Hs Hd]. split; [exact Hs | exact Hd].
    + destruct (py_index_ok pages (p - 1)) as [x Hx]; [lia |].
      rewrite Hx. simpl.
      eexists _, _. split; [reflexivity |]. split; [reflexivity |].
      split; [lia |]. split; [reflexivity | exact Hx].
  - (* next *)
    run_loop_body. destruct (Z.geb_spec p (Z.of_nat (length pages) - 1)) as [Hge | Hlt]; simpl.
    + eexists _, _. split; [reflexivity |]. split; [reflexivity |].
      split; [lia |]. destruct Hsync as [Hs Hd]. split; [exact Hs | exact Hd].
    + destruct (py_index_ok pages (p + 1)) as [x Hx]; [lia |].
      rewrite Hx. simpl.
      eexists _, _. split; [reflexivity |]. split; [reflexivity |].
      split; [lia |]. split; [reflexivity | exact Hx].
  - (* last *)
    destruct (py_index_ok pages (Z.of_nat (length pages) - 1)) as [x Hx]; [lia |].
    run_loop_body. rewrite Hx. simpl.
    eexists _, _. split; [reflexivity |]. split; [reflexivity |].
    split; [lia |]. split; [reflexivity | exact Hx].
  - (* close *)
    exists Out, m. repeat split.
Qed.

(** The page index a loop stands on. *)
Definition page_of (o : outcome) : Z :=
  match o with Waiting p | Ended _ p => p end.

(** X4. LinePaginator's loop, every call going through: after any sequence
    of accepted events the message shows the page the index stands on and
    the index is within the pages. While the loop waits the controls stay
    attached; once it has ended, by timeout or by the close event, all of
    them are removed and the page shown last stays on the message. *)
Theorem line_loop_shows_current_page_and_strips_controls
    (pages : list string) (ft : option string) (events : list wait_result)
    (p : Z) (em : Embed) (m : Message) :
  0 <= p < Z.of_nat (length pages) ->
  shown m = em ->
  py_index pages p = Ok (description em) ->
  exists o m',
    line_loop pages ft events p em (mkEnv m []) = (Ok o, mkEnv m' []) /\
    0 <= page_of o < Z.of_nat (length pages) /\
    py_index pages (page_of o) = Ok (description (shown m')) /\
    match o with
    | Waiting _ => controls m' = controls m
    | Ended _ _ => controls m' = []
    end.
Proof.
  intros Hp Hshown Hdesc. assert (Hsync : synced pages p m em) by (split; assumption).
  clear Hshown Hdesc. revert p em m Hp Hsync.
  induction events as [| [| r] rest IH]; intros p em m Hp [Hs Hd].
  - exists (Waiting p), m. simpl. rewrite Hs. auto.
  - eexists _, _. simpl. unfold clear_reactions, bind, external, modify, ret. simpl.
    split; [reflexivity |]. simpl. rewrite Hs. auto.
  - destruct (line_body_keeps_synced pages ft r p em m Hp (conj Hs Hd))
      as (f & m1 & Hbody & Hctl & Hf).
    simpl. unfold bind at 1. rewrite Hbody.
    destruct f as [p' em' | p' em' |].
    + destruct Hf as [Hp' Hsync']. destruct (IH p' em' m1 Hp' Hsync') as (o & m' & Hrun & Ho).
      exists o, m'. split; [exact Hrun |]. rewrite <- Hctl. exact Ho.
    + destruct Hf as [Hp' Hsync']. destruct (IH p' em' m1 Hp' Hsync') as (o & m' & Hrun & Ho).
      exists o, m'. split; [exact Hrun |]. rewrite <- Hctl. exact Ho.
    + subst m1. eexists _, _. unfold clear_reactions, bind, external, modify, ret. simpl.
      split; [reflexivity |]. simpl. rewrite Hs. auto.
Qed.

Lemma line_loop_shows_current_page_and_strips_controls_witness :
  exists o m',
    line_loop two_pages None [Reacted RIGHT_EMOJI; Reacted RIGHT_EMOJI; TimedOut] 0
      first_embed (mkEnv fresh_message [])
    = (Ok o, mkEnv m' []) /\
    0 <= page_of o < Z.of_nat (length two_pages) /\
    py_index two_pages (page_of o) = Ok (description (shown m')) /\
    match o with
    | Waiting _ => controls m' = controls fresh_message
    | Ended _ _ => controls m' = []
    end.
Proof.
  apply (line_loop_shows_current_page_and_strips_controls two_pages None
           [Reacted RIGHT_EMOJI; Reacted RIGHT_EMOJI; TimedOut] 0 first_embed fresh_message).
  - vm_compute. split; [discriminate | reflexivity].
  - reflexivity.
  - reflexivity.
Defined.

(** ** ImagePaginator: a page to every pair *)

(** The page [ImagePaginator] renders for a title. *)
Definition image_page (prefix suffix : string) (pair : string * string) : string :=
  join_lines [prefix; fst pair; suffix].

Lemma image_add_all_spec (pairs : list (string * string)) : forall p,
  Image._current_page p = [Image.prefix p] ->
  let p' := Image.add_all pairs p in
  Image._current_page p' = [Image.prefix p'] /\
  Image.prefix p' = Image.prefix p /\
  Image.suffix p' = Image.suffix p /\
  Image._pages p' = Image._pages p
                    ++ map (image_page (Image.prefix p) (Image.suffix p)) pairs /\
  Image.images p' = Image.images p ++ map snd pairs.
Proof.
  induction pairs as [| pair rest IH]; intros p Hcur; simpl.
  - now rewrite !app_nil_r.
  - specialize (IH (Image.add_image (snd pair) (Image.add_line (fst pair) p)) eq_refl).
    simpl in IH. destruct IH as (Hc & Hp & Hs & Hpg & Him).
    unfold Image.add_all in *. simpl.
    split; [exact Hc |]. split; [exact Hp |]. split; [exact Hs |].
    rewrite Hpg, Him, Hcur, <- !app_assoc. split; reflexivity.
Qed.

Lemma image_pages_spec prefix suffix pairs :
  Image.pages (Image.add_all pairs (Image.init prefix suffix))
  = map (image_page prefix suffix) pairs /\
  Image.images (Image.add_all pairs (Image.init prefix suffix)) = map snd pairs.
Proof.
  destruct (image_add_all_spec pairs (Image.init prefix suffix) eq_refl)
    as (Hc & Hp & _ & Hpg & Him).
  unfold Image.pages. rewrite Hc. simpl. split; [exact Hpg | exact Him].
Qed.

(** X5. [ImagePaginator] makes one page of every (title, image) pair, in
    order: page [i] is prefix, title and suffix of pair [i], and [images[i]]
    is that pair's image, so pages and images are as many as the pairs and
    an index that is good for one is good for the other. *)
Theorem image_pages_align_with_images (prefix suffix : string) (pairs : list (string * string)) :
  Image.pages (Image.add_all pairs (Image.init prefix suffix))
  = map (image_page prefix suffix) pairs /\
  Image.images (Image.add_all pairs (Image.init prefix suffix)) = map snd pairs /\
  length (Image.pages (Image.add_all pairs (Image.init prefix suffix))) = length pairs /\
  length (Image.images (Image.add_all pairs (Image.init prefix suffix))) = length pairs.
Proof.
  destruct (image_pages_spec prefix suffix pairs) as [Hp Hi].
  rewrite Hp, Hi, !length_map. auto.
Qed.

(** X6. What [ImagePaginator.paginate] puts on the message. No pair and
    [exception_on_empty_embed]: EmptyPaginatorEmbed, before anything is sent.
    No pair otherwise, or one pair: the one page, the placeholder in the
    first case, is sent with no reaction attached and nothing is waited for.
    Two pairs or more: the first page is sent with footer "Page 1/N" and the
    five controls are attached in their order when the loop starts to wait. *)
Theorem image_paginate_attaches_controls_only_to_several_pages
    (embed : Embed) (prefix suffix : string) (events : list wait_result) :
  ImagePaginator_paginate [] embed prefix suffix true events (mkEnv None [])
  = (Raise EmptyPaginatorEmbed, mkEnv None []) /\
  (exists m,
     ImagePaginator_paginate [] embed prefix suffix false events (mkEnv None [])
     = (Ok None, mkEnv (Some m) []) /\
     controls m = [] /\
     description (shown m) = image_page prefix suffix (no_images_to_display, EmptyString)) /\
  (forall pair exc, exists m,
     ImagePaginator_paginate [pair] embed prefix suffix exc events (mkEnv None [])
     = (Ok None, mkEnv (Some m) []) /\
     controls m = [] /\
     description (shown m) = image_page prefix suffix pair) /\
  (forall first second rest exc, exists m,
     ImagePaginator_paginate (first :: second :: rest) embed prefix suffix exc []
       (mkEnv None [])
     = (Ok (Some (Waiting 0)), mkEnv (Some m) []) /\
     controls m = [FIRST_EMOJI; LEFT_EMOJI; RIGHT_EMOJI; LAST_EMOJI; DELETE_EMOJI] /\
     description (shown m) = image_page prefix suffix first /\
     footer (shown m) = Some (mkFooter None 1 (Z.of_nat (length (first :: second :: rest))))).
Proof.
  split; [reflexivity |]. split; [| split].
  - eexists. unfold ImagePaginator_paginate, bind, ret, lift. simpl.
    split; [reflexivity |]. split; reflexivity.
  - intros pair exc. unfold ImagePaginator_paginate.
    destruct (String.eqb (snd pair) EmptyString) eqn:Himg;
      eexists; unfold bind, ret, lift; simpl; rewrite Himg;
      (split; [reflexivity |]); split; reflexivity.
  - intros first second rest exc. unfold ImagePaginator_paginate.
    destruct (image_pages_spec prefix suffix (first :: second :: rest)) as [Hp Hi].
    unfold bind at 1. unfold ret at 1. rewrite Hp, Hi.
    assert (Hmany : (Z.of_nat (length (map (image_page prefix suffix)
                                         (first :: second :: rest))) <=? 1) = false).
    { rewrite length_map. apply Z.leb_gt. simpl length. lia. }
    rewrite Hmany, length_map.
    destruct (String.eqb (snd first) EmptyString) eqn:Himg;
      eexists; unfold bind, ret, lift; simpl; rewrite Himg;
      (split; [reflexivity |]); (split; [reflexivity |]); split; reflexivity.
Qed.

End PaginateFacts.

(* ===================================================================== *)
(** * Further facts: store and schedule of the reminders                  *)
(* ===================================================================== *)

Module RemindersAgreement.
Import Py PyFacts Reminders RemindersFacts.
Local Open Scope Z_scope.

(** ** Store and schedule in agreement *)

(** Ids are unique and below the next id the store hands out, and the
    scheduler holds an entry for exactly the stored reminders, each under its
    own id. *)
Definition agrees (b : Bot) : Prop :=
  List.NoDup (map id_ (reminders_db b)) /\
  (forall r, In r (reminders_db b) -> id_ r < next_id b) /\
  (forall k r, scheduled_tasks b !! k = Some r <-> In r (reminders_db b) /\ id_ r = k).

Lemma same_id_same_reminder (db : list Reminder) (r r' : Reminder) :
  List.NoDup (map id_ db) -> In r db -> In r' db -> id_ r = id_ r' -> r = r'.
Proof.
  induction db as [| x db IH]; intros Hnd Hr Hr' Heq; [contradiction |].
  simpl in Hnd. apply List.NoDup_cons_iff in Hnd as [Hx Hnd].
  destruct Hr as [-> | Hr], Hr' as [-> | Hr']; auto.
  - exfalso. apply Hx. rewrite Heq. now apply in_map.
  - exfalso. apply Hx. rewrite <- Heq. now apply in_map.
Qed.

Lemma NoDup_ids_filter (keep : Reminder -> bool) (db : list Reminder) :
  List.NoDup (map id_ db) -> List.NoDup (map id_ (List.filter keep db)).
Proof.
  induction db as [| x db IH]; intros Hnd; simpl; [constructor |].
  simpl in Hnd. apply List.NoDup_cons_iff in Hnd as [Hx Hnd].
  destruct (keep x); simpl; [| now apply IH].
  constructor; [| now apply IH].
  intros Hin. apply Hx. apply in_map_iff in Hin as (y & Hy & Hin).
  apply filter_In in Hin as [Hin _]. rewrite <- Hy. now apply in_map.
Qed.

Lemma filter_twice {A} (f g : A -> bool) (l : list A) :
  List.filter f (List.filter g l) = List.filter (fun x => g x && f x) l.
Proof.
  induction l as [| x l IH]; simpl; [reflexivity |].
  destruct (g x); simpl; [destruct (f x); now rewrite IH | exact IH].
Qed.

(** ** After recovery *)

(** What the store holds after the loop of [on_ready] has gone through [rs]. *)
Lemma recover_all_store now rs : forall b,
  List.NoDup (map id_ rs) ->
  (forall r, In r rs -> In r (reminders_db b)) ->
  (forall r, In r rs -> scheduled_tasks b !! id_ r = None) ->
  exists b',
    for_each rs (recover now) (mkEnv b []) = (Ok tt, mkEnv b' []) /\
    next_id b' = next_id b /\
    (exists keep, reminders_db b' = List.filter keep (reminders_db b)) /\
    (forall x, In x (reminders_db b') <->
               In x (reminders_db b) /\
               ~ (exists r, In r rs /\ expiration r < now /\ id_ r = id_ x)).
Proof.
  induction rs as [| r0 rest IH]; intros b Hnd Hdb Hfree.
  - exists b. simpl. split; [reflexivity |]. split; [reflexivity |].
    split; [exists (fun _ => true); now rewrite filter_all |].
    intros x. split; [intros Hx; split; [exact Hx | intros (r & [] & _)] | tauto].
  - simpl in Hnd. apply List.NoDup_cons_iff in Hnd as [Hr0 Hnd].
    assert (Hother : forall r, In r rest -> id_ r <> id_ r0).
    { intros r Hin Heq. apply Hr0. rewrite <- Heq. now apply in_map. }
    destruct (Z.ltb_spec (expiration r0) now) as [Hlate | Hnot].
    + destruct (IH (after_late_fire now r0 b) Hnd)
        as (b' & Hrun & Hnext & [keep Hkeep] & Hstore).
      { intros r Hin. simpl. apply others_survive_delete; [apply Hdb; now right | now apply Hother]. }
      { intros r Hin. simpl. rewrite lookup_delete_ne by (intros Heq; now apply (Hother r Hin)).
        apply Hfree. now right. }
      exists b'. simpl for_each. unfold bind at 1.
      rewrite (recover_overdue now r0 b Hlate (Hdb r0 (or_introl eq_refl))).
      split; [exact Hrun |]. split; [exact Hnext |].
      split; [eexists; rewrite Hkeep; simpl; apply filter_twice |].
      intros x. rewrite Hstore. simpl. rewrite filter_In. unfold has_id. split.
      * intros [[Hx Hid] Hno]. split; [exact Hx |].
        intros (r & [<- | Hin] & Hl & Heq).
        -- rewrite Heq, Z.eqb_refl in Hid. discriminate.
        -- apply Hno. eauto.
      * intros [Hx Hno]. split; [split; [exact Hx |] |].
        -- destruct (Z.eqb_spec (id_ x) (id_ r0)) as [Heq | _]; [| reflexivity].
           exfalso. apply Hno. exists r0. auto.
        -- intros (r & Hin & Hl & Heq). apply Hno. exists r. auto.
    + pose proof (Hfree r0 (or_introl eq_refl)) as Hfree0.
      destruct (IH (set_scheduled (<[id_ r0 := r0]> (scheduled_tasks b)) b) Hnd)
        as (b' & Hrun & Hnext & Hkeep & Hstore).
      { intros r Hin. simpl. apply Hdb. now right. }
      { intros r Hin. simpl. rewrite lookup_insert_ne by (intros Heq; now apply (Hother r Hin)).
        apply Hfree. now right. }
      exists b'. simpl for_each. unfold bind at 1.
      rewrite (recover_pending now r0 b Hnot Hfree0).
      split; [exact Hrun |]. split; [exact Hnext |]. split; [exact Hkeep |].
      intros x. rewrite Hstore. simpl. split.
      * intros [Hx Hno]. split; [exact Hx |].
        intros (r & [<- | Hin] & Hl & Heq); [lia | apply Hno; eauto].
      * intros [Hx Hno]. split; [exact Hx |].
        intros (r & Hin & Hl & Heq). apply Hno. exists r. auto.
Qed.

(** X7. After a startup recovery in which every call goes through, store
    and schedule agree: the store holds exactly the reminders that were not
    yet due (the overdue ones are deleted with their notice), and the
    scheduler holds an entry for exactly those, each under its own id. *)
Theorem on_ready_leaves_store_and_schedule_in_agreement (now : Z) (b : Bot) :
  List.NoDup (map id_ (reminders_db b)) ->
  (forall r, In r (reminders_db b) -> id_ r < next_id b) ->
  scheduled_tasks b = ∅ ->
  exists b',
    on_ready now (mkEnv b []) = (Ok tt, mkEnv b' []) /\
    agrees b' /\
    (forall x, In x (reminders_db b') <-> In x (reminders_db b) /\ now <= expiration x).
Proof.
  intros Hnd Hfresh Hempty.
  assert (Hfree : forall r, In r (reminders_db b) -> scheduled_tasks b !! id_ r = None).
  { intros r _. rewrite Hempty. apply lookup_empty. }
  destruct (recover_all now (reminders_db b) b Hnd (fun r H => H) Hfree)
    as (b1 & Hrun1 & _ & Hover & Hpend & Hrest).
  destruct (recover_all_store now (reminders_db b) b Hnd (fun r H => H) Hfree)
    as (b' & Hrun & Hnext & [keep Hkeep] & Hstore).
  rewrite Hrun in Hrun1. injection Hrun1 as <-.
  assert (Hleft : forall x, In x (reminders_db b') <->
                            In x (reminders_db b) /\ now <= expiration x).
  { intros x. rewrite Hstore. split.
    - intros [Hx Hno]. split; [exact Hx |].
      destruct (Z.le_gt_cases now (expiration x)) as [? | Hl]; [assumption |].
      exfalso. apply Hno. exists x. auto.
    - intros [Hx Hle]. split; [exact Hx |].
      intros (r & Hin & Hl & Heq).
      rewrite (same_id_same_reminder _ r x Hnd Hin Hx Heq) in Hl. lia. }
  exists b'. split.
  { unfold on_ready, api_get, bind, external, get, ret. simpl.
    rewrite filter_all. exact Hrun. }
  split; [| exact Hleft].
  split; [rewrite Hkeep; now apply NoDup_ids_filter |].
  split.
  { intros r Hr. rewrite Hnext. apply Hfresh. now apply Hleft. }
  intros k r. split.
  - intros Hk.
    destruct (in_dec Z.eq_dec k (map id_ (reminders_db b))) as [Hin | Hout].
    + apply in_map_iff in Hin as (r0 & <- & Hin).
      destruct (Z.lt_ge_cases (expiration r0) now) as [Hl | Hg].
      * rewrite (Hover r0 Hin Hl) in Hk. discriminate.
      * rewrite (Hpend r0 Hin Hg) in Hk. injection Hk as <-.
        split; [apply Hleft; auto | reflexivity].
    + rewrite (Hrest k Hout), Hempty, lookup_empty in Hk. discriminate.
  - intros [Hr <-]. apply Hleft in Hr as [Hr Hle]. now apply Hpend.
Qed.

Lemma on_ready_leaves_store_and_schedule_in_agreement_witness :
  exists b',
    on_ready 100 (mkEnv at_startup []) = (Ok tt, mkEnv b' []) /\
    agrees b' /\
    (forall x, In x (reminders_db b') <-> In x (reminders_db at_startup) /\ 100 <= expiration x).
Proof.
  apply (on_ready_leaves_store_and_schedule_in_agreement 100 at_startup).
  - repeat constructor; simpl; intuition discriminate.
  - intros r [<- | [<- | []]]; reflexivity.
  - reflexivity.
Defined.

(** ** Commands keep the agreement *)

Lemma agrees_after_message (b : Bot) (x : Sent) : agrees b -> agrees (push_sent x b).
Proof. intros H. exact H. Qed.

(** ** Deleting *)

Lemma unknown_id_not_stored (k : Z) (db : list Reminder) :
  (forall r, In r db -> id_ r <> k) -> existsb (has_id k) db = false.
Proof.
  intros Hno. destruct (existsb (has_id k) db) eqn:Hex; [| reflexivity].
  apply existsb_exists in Hex as (r & Hin & Hid). unfold has_id in Hid.
  apply Z.eqb_eq in Hid. now destruct (Hno r Hin).
Qed.

Lemma agrees_after_delete (b : Bot) (k : Z) :
  agrees b ->
  agrees (set_scheduled (delete k (scheduled_tasks b))
            (set_db (List.filter (fun r => negb (has_id k r)) (reminders_db b)) b)).
Proof.
  intros (Hnd & Hfresh & Hsched). split; [| split]; simpl.
  - now apply NoDup_ids_filter.
  - intros r Hr. apply filter_In in Hr as [Hr _]. now apply Hfresh.
  - intros key r. rewrite filter_In. unfold has_id. split.
    + intros Hk. destruct (Z.eq_dec k key) as [<- | Hne].
      * rewrite lookup_delete_eq in Hk. discriminate.
      * rewrite lookup_delete_ne in Hk by exact Hne. apply Hsched in Hk as [Hin <-].
        split; [split; [exact Hin |] | reflexivity].
        destruct (Z.eqb_spec (id_ r) k); [congruence | reflexivity].
    + intros [[Hin Hid] <-]. destruct (Z.eqb_spec (id_ r) k) as [? | Hne]; [discriminate |].
      rewrite lookup_delete_ne by congruence. apply Hsched. auto.
Qed.

Lemma tea_scheduled_agrees : agrees tea_scheduled.
Proof.
  split; [repeat constructor; simpl; tauto | split].
  - intros r [<- | []]. reflexivity.
  - intros k r. simpl. split.
    + intros Hk. destruct (Z.eq_dec 1 k) as [<- | Hne].
      * rewrite lookup_singleton_eq in Hk. injection Hk as <-. auto.
      * rewrite lookup_singleton_ne in Hk by exact Hne. discriminate.
    + intros [[<- | []] <-]. apply lookup_singleton_eq.
Qed.

(** X9. [delete_reminder] on a stored reminder, every call going through:
    the record leaves the store, its entry leaves the scheduler, the
    confirmation is sent, and store and schedule agree as before. On an id
    the store does not know the command raises whatever the calls do, with
    nothing changed and no confirmation sent. *)
Theorem delete_reminder_removes_record_and_entry (ctx : Context) (k : Z) (b : Bot) :
  agrees b ->
  (forall r, In r (reminders_db b) -> id_ r = k ->
     exists b',
       delete_reminder ctx k (mkEnv b []) = (Ok tt, mkEnv b' []) /\
       agrees b' /\
       (forall x, In x (reminders_db b') <-> In x (reminders_db b) /\ x <> r) /\
       scheduled_tasks b' !! k = None /\
       sent b' = sent b ++ [Confirmation (ctx_channel ctx)
                              "That reminder has been deleted successfully!"]) /\
  ((forall r, In r (reminders_db b) -> id_ r <> k) ->
     forall pl, exists e pl', delete_reminder ctx k (mkEnv b pl) = (Raise e, mkEnv b pl')).
Proof.
  intros Hagree. split.
  - intros r Hin <-.
    eexists. split; [| split; [| split; [| split]]].
    + unfold delete_reminder, _delete_reminder, api_delete, cancel_task, _send_confirmation,
        deliver, bind, external, get, modify, ret. simpl.
      rewrite (stored_has_id r _ Hin). reflexivity.
    + simpl. apply (agrees_after_message _ _ (agrees_after_delete b (id_ r) Hagree)).
    + intros x. simpl. rewrite filter_In. unfold has_id. destruct Hagree as (Hnd & _).
      split.
      * intros [Hx Hid]. split; [exact Hx |]. intros ->. rewrite Z.eqb_refl in Hid. discriminate.
      * intros [Hx Hne]. split; [exact Hx |].
        destruct (Z.eqb_spec (id_ x) (id_ r)) as [Heq | _]; [| reflexivity].
        destruct Hne. exact (same_id_same_reminder _ x r Hnd Hx Hin Heq).
    + simpl. apply lookup_delete_eq.
    + reflexivity.
  - intros Hno pl. pose proof (unknown_id_not_stored k _ Hno) as Hex.
    unfold delete_reminder, _delete_reminder, api_delete, bind, external, get, raise.
    destruct pl as [| [e |] rest]; simpl; rewrite ?Hex; eexists _, _; reflexivity.
Qed.

Lemma delete_reminder_removes_record_and_entry_witness :
  (forall r, In r (reminders_db tea_scheduled) -> id_ r = 1 ->
     exists b',
       delete_reminder member 1 (mkEnv tea_scheduled []) = (Ok tt, mkEnv b' []) /\
       agrees b' /\
       (forall x, In x (reminders_db b') <-> In x (reminders_db tea_scheduled) /\ x <> r) /\
       scheduled_tasks b' !! 1 = None /\
       sent b' = sent tea_scheduled ++ [Confirmation (ctx_channel member)
                              "That reminder has been deleted successfully!"]) /\
  ((forall r, In r (reminders_db tea_scheduled) -> id_ r <> 1) ->
     forall pl, exists e pl',
       delete_reminder member 1 (mkEnv tea_scheduled pl) = (Raise e, mkEnv tea_scheduled pl')).
Proof.
  apply (delete_reminder_removes_record_and_entry member 1 tea_scheduled).
  exact tea_scheduled_agrees.
Defined.

(** ** Editing *)

Lemma find_by_id (k : Z) (r : Reminder) (db : list Reminder) :
  List.NoDup (map id_ db) -> In r db -> id_ r = k -> find (has_id k) db = Some r.
Proof.
  induction db as [| x db IH]; intros Hnd Hin Hid; [contradiction |].
  simpl in Hnd. apply List.NoDup_cons_iff in Hnd as [Hx Hnd]. simpl. unfold has_id at 1.
  destruct (Z.eqb_spec (id_ x) k) as [Hxk | Hxk].
  - destruct Hin as [-> | Hin]; [reflexivity |].
    exfalso. apply Hx. rewrite Hxk, <- Hid. now apply in_map.
  - destruct Hin as [-> | Hin]; [congruence | now apply IH].
Qed.

Lemma find_unknown_id (k : Z) (db : list Reminder) :
  (forall r, In r db -> id_ r <> k) -> find (has_id k) db = None.
Proof.
  intros Hno. destruct (find (has_id k) db) as [r |] eqn:Hf; [| reflexivity].
  apply find_some in Hf as [Hin Hid]. unfold has_id in Hid. apply Z.eqb_eq in Hid.
  now destruct (Hno r Hin).
Qed.

Lemma changed_keeps_id (c : Change) (r : Reminder) : id_ (changed c r) = id_ r.
Proof. destruct c; reflexivity. Qed.

(** The store with the change applied to [k], the scheduler with the changed
    reminder in place of the old entry. *)
Definition after_edit (k : Z) (c : Change) (r : Reminder) (out : list Sent) (b : Bot) : Bot :=
  {| reminders_db := map (fun x => if has_id k x then changed c x else x) (reminders_db b);
     next_id := next_id b;
     scheduled_tasks := <[k := changed c r]> (delete k (scheduled_tasks b));
     sent := out |}.

Lemma agrees_after_edit (k : Z) (c : Change) (r : Reminder) (out : list Sent) (b : Bot) :
  agrees b -> In r (reminders_db b) -> id_ r = k -> agrees (after_edit k c r out b).
Proof.
  intros (Hnd & Hfresh & Hsched) Hin Hid.
  assert (Hids : map id_ (map (fun x => if has_id k x then changed c x else x) (reminders_db b))
                 = map id_ (reminders_db b)).
  { rewrite map_map. apply map_ext. intros x.
    destruct (has_id k x); [apply changed_keeps_id | reflexivity]. }
  split; [| split]; simpl.
  - now rewrite Hids.
  - intros x Hx. apply in_map_iff in Hx as (y & <- & Hy).
    destruct (has_id k y); rewrite ?changed_keeps_id; now apply Hfresh.
  - intros key x. rewrite in_map_iff. split.
    + intros Hk. destruct (Z.eq_dec k key) as [<- | Hne].
      * rewrite lookup_insert_eq in Hk. injection Hk as <-.
        split; [| now rewrite changed_keeps_id].
        exists r. split; [| exact Hin]. unfold has_id. now rewrite Hid, Z.eqb_refl.
      * rewrite lookup_insert_ne, lookup_delete_ne in Hk by exact Hne.
        apply Hsched in Hk as [Hx <-]. split; [| reflexivity].
        exists x. split; [| exact Hx]. unfold has_id.
        destruct (Z.eqb_spec (id_ x) k); [congruence | reflexivity].
    + intros [(y & <- & Hy) <-]. unfold has_id.
      destruct (Z.eqb_spec (id_ y) k) as [Hyk | Hyk].
      * rewrite changed_keeps_id, Hyk.
        rewrite (same_id_same_reminder _ y r Hnd Hy Hin) by congruence.
        apply lookup_insert_eq.
      * rewrite lookup_insert_ne, lookup_delete_ne by congruence. apply Hsched. auto.
Qed.

Lemma edit_run (ctx : Context) (k : Z) (c : Change) (r : Reminder) (b : Bot) :
  agrees b -> In r (reminders_db b) -> id_ r = k ->
  bind (api_patch k c) (fun reminder =>
    bind (_send_confirmation ctx "That reminder has been edited successfully!") (fun _ =>
    _reschedule_reminder reminder)) (mkEnv b [])
  = (Ok tt,
     mkEnv (after_edit k c r
              (sent b ++ [Confirmation (ctx_channel ctx)
                            "That reminder has been edited successfully!"]) b) []).
Proof.
  intros (Hnd & _) Hin Hid.
  unfold api_patch, _send_confirmation, deliver, _reschedule_reminder, cancel_task,
    schedule_task, bind, external, get, modify, ret. simpl.
  rewrite (find_by_id k r _ Hnd Hin Hid). simpl.
  rewrite changed_keeps_id, Hid, lookup_delete_eq. reflexivity.
Qed.

Lemma edit_unknown (ctx : Context) (k : Z) (c : Change) (b : Bot) (pl : list (option exn)) :
  (forall r, In r (reminders_db b) -> id_ r <> k) ->
  exists e pl',
    bind (api_patch k c) (fun reminder =>
      bind (_send_confirmation ctx "That reminder has been edited successfully!") (fun _ =>
      _reschedule_reminder reminder)) (mkEnv b pl)
    = (Raise e, mkEnv b pl').
Proof.
  intros Hno. pose proof (find_unknown_id k _ Hno) as Hf.
  unfold api_patch, bind, external, get, raise.
  destruct pl as [| [e |] rest]; simpl; rewrite ?Hf; eexists _, _; reflexivity.
Qed.

(** X10. The edit commands, every call going through, on a stored reminder:
    the store holds the reminder with the new expiration (or content), the
    scheduler holds one entry for its id and that entry carries the edited
    reminder in place of the old one, and store and schedule agree as before. On an id the store does not know, either command raises
    with nothing changed: no confirmation, and no entry under that id. *)
Theorem edit_replaces_entry_with_edited_reminder
    (ctx : Context) (k : Z) (expiration : Z) (content : string) (b : Bot) :
  agrees b ->
  (forall r, In r (reminders_db b) -> id_ r = k ->
     (exists b',
        edit_reminder_duration ctx k expiration (mkEnv b []) = (Ok tt, mkEnv b' []) /\
        agrees b' /\
        scheduled_tasks b' !! k = Some (changed (NewExpiration expiration) r) /\
        In (changed (NewExpiration expiration) r) (reminders_db b')) /\
     (exists b',
        edit_reminder_content ctx k content (mkEnv b []) = (Ok tt, mkEnv b' []) /\
        agrees b' /\
        scheduled_tasks b' !! k = Some (changed (NewContent content) r) /\
        In (changed (NewContent content) r) (reminders_db b'))) /\
  ((forall r, In r (reminders_db b) -> id_ r <> k) ->
     forall pl,
       (exists e pl', edit_reminder_duration ctx k expiration (mkEnv b pl)
                      = (Raise e, mkEnv b pl')) /\
       (exists e pl', edit_reminder_content ctx k content (mkEnv b pl)
                      = (Raise e, mkEnv b pl'))).
Proof.
  intros Hagree. split.
  - intros r Hin Hid.
    assert (Hdone : forall c, exists b',
              bind (api_patch k c) (fun reminder =>
                bind (_send_confirmation ctx "That reminder has been edited successfully!")
                  (fun _ => _reschedule_reminder reminder)) (mkEnv b [])
              = (Ok tt, mkEnv b' []) /\
              agrees b' /\
              scheduled_tasks b' !! k = Some (changed c r) /\
              In (changed c r) (reminders_db b')).
    { intros c. eexists. split; [apply (edit_run ctx k c r b Hagree Hin Hid) |].
      split; [now apply agrees_after_edit |]. split; [apply lookup_insert_eq |].
      simpl. apply in_map_iff. exists r. split; [| exact Hin].
      unfold has_id. now rewrite Hid, Z.eqb_refl. }
    split; [exact (Hdone (NewExpiration expiration)) | exact (Hdone (NewContent content))].
  - intros Hno pl. split.
    + exact (edit_unknown ctx k (NewExpiration expiration) b pl Hno).
    + exact (edit_unknown ctx k (NewContent content) b pl Hno).
Qed.

Lemma edit_replaces_entry_with_edited_reminder_witness :
  (forall r, In r (reminders_db tea_scheduled) -> id_ r = 1 ->
     (exists b',
        edit_reminder_duration member 1 900 (mkEnv tea_scheduled []) = (Ok tt, mkEnv b' []) /\
        agrees b' /\
        scheduled_tasks b' !! 1 = Some (changed (NewExpiration 900) r) /\
        In (changed (NewExpiration 900) r) (reminders_db b')) /\
     (exists b',
        edit_reminder_content member 1 "later" (mkEnv tea_scheduled []) = (Ok tt, mkEnv b' []) /\
        agrees b' /\
        scheduled_tasks b' !! 1 = Some (changed (NewContent "later") r) /\
        In (changed (NewContent "later") r) (reminders_db b'))) /\
  ((forall r, In r (reminders_db tea_scheduled) -> id_ r <> 1) ->
     forall pl,
       (exists e pl', edit_reminder_duration member 1 900 (mkEnv tea_scheduled pl)
                      = (Raise e, mkEnv tea_scheduled pl')) /\
       (exists e pl', edit_reminder_content member 1 "later" (mkEnv tea_scheduled pl)
                      = (Raise e, mkEnv tea_scheduled pl'))).
Proof.
  apply (edit_replaces_entry_with_edited_reminder member 1 900 "later" tea_scheduled).
  exact tea_scheduled_agrees.
Defined.

End RemindersAgreement.

(* ===================================================================== *)
(** * Further facts: the list of reminders                                *)
(* ===================================================================== *)

Module RemindersListing.
Import Py Reminders RemindersFacts.
Local Open Scope Z_scope.

(** ** The order on texts *)

Lemma ascii_compare_refl (a : Ascii.ascii) : Ascii.compare a a = Eq.
Proof. unfold Ascii.compare. apply N.compare_refl. Qed.

Lemma ascii_compare_trans (a b c : Ascii.ascii) (o : comparison) :
  Ascii.compare a b = o -> Ascii.compare b c = o -> Ascii.compare a c = o.
Proof.
  unfold Ascii.compare. intros Hab Hbc. destruct o.
  - apply N.compare_eq_iff in Hab, Hbc. apply N.compare_eq_iff. congruence.
  - apply N.compare_lt_iff in Hab. apply N.compare_lt_iff in Hbc. apply N.compare_lt_iff.
    eapply N.lt_trans; eassumption.
  - apply N.compare_gt_iff in Hab. apply N.compare_gt_iff in Hbc. apply N.compare_gt_iff.
    eapply N.lt_trans; eassumption.
Qed.

Lemma string_compare_refl (s : string) : String.compare s s = Eq.
Proof.
  induction s as [| a s IH]; simpl; [reflexivity |]. now rewrite ascii_compare_refl.
Qed.

Lemma string_compare_trans (o : comparison) : forall s t u : string,
  String.compare s t = o -> String.compare t u = o -> String.compare s u = o.
Proof.
  induction s as [| a s IH]; intros [| b t] [| c u]; simpl; try congruence.
  destruct (Ascii.compare a b) eqn:Hab, (Ascii.compare b c) eqn:Hbc;
    intros Hst Htu; try congruence.
  - rewrite (ascii_compare_trans a b c Eq Hab Hbc). now apply IH with (t := t).
  - apply Ascii.compare_eq_iff in Hab. subst b. now rewrite Hbc.
  - apply Ascii.compare_eq_iff in Hab. subst b. now rewrite Hbc.
  - apply Ascii.compare_eq_iff in Hbc. subst c. now rewrite Hab.
  - now rewrite (ascii_compare_trans a b c Lt Hab Hbc).
  - apply Ascii.compare_eq_iff in Hbc. subst c. now rewrite Hab.
  - now rewrite (ascii_compare_trans a b c Gt Hab Hbc).
Qed.

Lemma leb_refl (s : string) : String.leb s s = true.
Proof. unfold String.leb. now rewrite string_compare_refl. Qed.

Lemma leb_gt (s t : string) : String.leb s t = false -> String.leb t s = true.
Proof.
  intros Hst. destruct (String.leb_total s t) as [H | H]; [congruence | exact H].
Qed.

Lemma leb_trans (s t u : string) :
  String.leb s t = true -> String.leb t u = true -> String.leb s u = true.
Proof.
  unfold String.leb. intros Hst Htu.
  destruct (String.compare s t) eqn:Est; try discriminate;
    destruct (String.compare t u) eqn:Etu; try discriminate.
  - now rewrite (string_compare_trans Eq s t u Est Etu).
  - apply String.compare_eq_iff in Est. subst t. now rewrite Etu.
  - apply String.compare_eq_iff in Etu. subst u. now rewrite Est.
  - now rewrite (string_compare_trans Lt s t u Est Etu).
Qed.

(** ** The sort *)

Section Sort.
Context {A : Type} (key : A -> string).

Definition by_key (x y : A) : Prop := String.leb (key x) (key y) = true.

Lemma insert_by_Permutation x l : Permutation (insert_by key x l) (x :: l).
Proof.
  induction l as [| y l IH]; simpl; [reflexivity |].
  destruct (String.leb (key x) (key y)); [reflexivity |].
  rewrite IH. apply perm_swap.
Qed.

Lemma sorted_by_Permutation l : Permutation (sorted_by key l) l.
Proof.
  induction l as [| x l IH]; simpl; [reflexivity |].
  rewrite insert_by_Permutation. now constructor.
Qed.

Lemma insert_by_sorted x l :
  StronglySorted by_key l -> StronglySorted by_key (insert_by key x l).
Proof.
  induction l as [| y l IH]; intros Hs; simpl.
  - repeat constructor.
  - inversion Hs as [| ? ? Hl Hy]; subst.
    destruct (String.leb (key x) (key y)) eqn:Hle.
    + constructor; [exact Hs |]. constructor; [exact Hle |].
      eapply List.Forall_impl; [| exact Hy]. unfold by_key. intros z Hz.
      now apply leb_trans with (t := key y).
    + constructor; [now apply IH |].
      rewrite insert_by_Permutation. constructor; [now apply leb_gt | exact Hy].
Qed.

Lemma sorted_by_sorted l : StronglySorted by_key (sorted_by key l).
Proof.
  induction l as [| x l IH]; simpl; [constructor | now apply insert_by_sorted].
Qed.

(** The sort is stable: items of one key keep their order. *)
Lemma insert_by_stable k x l :
  List.filter (fun y => String.eqb (key y) k) (insert_by key x l)
  = List.filter (fun y => String.eqb (key y) k) (x :: l).
Proof.
  induction l as [| y l IH]; [reflexivity |].
  simpl insert_by. destruct (String.leb (key x) (key y)) eqn:Hle; [reflexivity |].
  simpl in *. rewrite IH.
  destruct (String.eqb_spec (key x) k) as [Hx | Hx],
           (String.eqb_spec (key y) k) as [Hy | Hy]; try reflexivity.
  rewrite Hx, Hy, leb_refl in Hle. discriminate.
Qed.

Lemma sorted_by_stable k l :
  List.filter (fun y => String.eqb (key y) k) (sorted_by key l)
  = List.filter (fun y => String.eqb (key y) k) l.
Proof.
  induction l as [| x l IH]; [reflexivity |].
  simpl sorted_by. rewrite insert_by_stable. simpl. now rewrite IH.
Qed.

End Sort.

Section Lines.
Variable expiration_text : Reminder -> string.

(** The tuple [list_reminders] makes of a reminder. *)
Definition tuple_of (r : Reminder) : string * string * Z :=
  (content r, expiration_text r, id_ r).

(** X12. [list_reminders] only reads: store, scheduler and id counter are as
    before. A caller without reminders gets the notice that none could be
    found and nothing is paginated. Otherwise the lines handed to the
    paginator are one for each of the caller's reminders and no other,
    ordered by the expiration text the site sent, compared as text, and
    reminders of one expiration text stay in the order the site listed them.
    The order is that of the texts, whatever deadlines they parse to. *)
Theorem list_reminders_orders_by_expiration_text
    (line_text : Z -> string * string * Z -> string) (now : Z) (ctx : Context) (b : Bot) :
  exists tuples,
    Permutation tuples (map tuple_of (active_of ctx b)) /\
    StronglySorted (fun s t => String.leb (snd (fst s)) (snd (fst t)) = true) tuples /\
    (forall e, List.filter (fun t => String.eqb (snd (fst t)) e) tuples
               = List.filter (fun t => String.eqb (snd (fst t)) e)
                   (map tuple_of (active_of ctx b))) /\
    ((active_of ctx b = [] /\
      list_reminders expiration_text line_text now ctx (mkEnv b [])
      = (Ok None,
         mkEnv (push_sent (Refusal (ctx_channel ctx) "No active reminders could be found.") b)
           [])) \/
     (active_of ctx b <> [] /\
      list_reminders expiration_text line_text now ctx (mkEnv b [])
      = (Ok (Some (map (line_text now) tuples)), mkEnv b []))).
Proof.
  exists (sorted_by (fun t => snd (fst t)) (map tuple_of (active_of ctx b))).
  split; [apply sorted_by_Permutation |].
  split; [apply (sorted_by_sorted (fun t : string * string * Z => snd (fst t))) |].
  split; [intros e; apply (sorted_by_stable (fun t : string * string * Z => snd (fst t))) |].
  unfold list_reminders, api_get, deliver, bind, external, get, modify, ret. simpl.
  fold (active_of ctx b).
  change (map (fun rem => (content rem, expiration_text rem, id_ rem))) with (map tuple_of).
  pose proof (sorted_by_Permutation (fun t : string * string * Z => snd (fst t))
                (map tuple_of (active_of ctx b))) as Hperm.
  destruct (sorted_by (fun t => snd (fst t)) (map tuple_of (active_of ctx b)))
    as [| t ts] eqn:Hsorted.
  - left. apply Permutation_nil in Hperm. apply map_eq_nil in Hperm.
    split; [exact Hperm | reflexivity].
  - right. split; [| reflexivity].
    intros Hnone. rewrite Hnone in Hperm. simpl in Hperm.
    apply Permutation_sym, Permutation_nil in Hperm. discriminate.
Qed.

End Lines.

End RemindersListing.

(* ===================================================================== *)
(** * Further facts: the starboard's cache                                *)
(* ===================================================================== *)

Module StarboardCache.
Import Py PyFacts Starboard StarboardFacts.
Local Open Scope Z_scope.

(** ** Only the wipe changes what kind of object the cache is *)

Lemma keeps_dict_get_message channel id : keeps_dict (get_message channel id).
Proof. unfold get_message. keeps_dict. Qed.

Lemma keeps_dict_get_messages payload starboard : keeps_dict (get_messages payload starboard).
Proof.
  unfold get_messages, site_get. destruct starboard as [starboard |]; [| apply keeps_dict_raise].
  keeps_dict; apply keeps_dict_get_message.
Qed.

Lemma keeps_dict_on_raw_reaction_add Guild_id Channels_starboard bot_user payload starboard :
  keeps_dict (on_raw_reaction_add Guild_id Channels_starboard bot_user payload starboard).
Proof.
  unfold on_raw_reaction_add.
  keeps_dict;
    first [ apply keeps_dict_get_messages | apply keeps_dict_delete_star
          | apply keeps_dict_post_new_entry | apply keeps_dict_change_starcount ].
Qed.

Lemma keeps_dict_on_raw_reaction_remove Guild_id payload starboard :
  keeps_dict (on_raw_reaction_remove Guild_id payload starboard).
Proof.
  unfold on_raw_reaction_remove.
  keeps_dict;
    first [ apply keeps_dict_get_messages | apply keeps_dict_delete_star
          | apply keeps_dict_change_starcount ].
Qed.

(** X13. Apart from the wipe command, nothing rebinds or retypes
    [star_msg_map]: started on a dict, the startup population, the two
    reaction handlers and everything they call ([get_messages],
    [post_new_entry], [change_starcount], [delete_star]) leave it a dict,
    whichever of their calls fail and however they end. *)
Theorem cache_stays_a_dict_outside_the_wipe
    (Guild_id Channels_starboard bot_user : Z) (payload : Payload) (starboard : option Z)
    (channel : Z) (original star_msg : Msg) (star : option Msg) (count : Z) :
  keeps_dict async_init /\
  keeps_dict (get_messages payload starboard) /\
  keeps_dict (post_new_entry bot_user original channel) /\
  keeps_dict (change_starcount channel original star_msg count) /\
  keeps_dict (delete_star original star) /\
  keeps_dict (on_raw_reaction_add Guild_id Channels_starboard bot_user payload starboard) /\
  keeps_dict (on_raw_reaction_remove Guild_id payload starboard).
Proof.
  repeat split.
  - apply keeps_dict_async_init.
  - apply keeps_dict_get_messages.
  - apply keeps_dict_post_new_entry.
  - apply keeps_dict_change_starcount.
  - apply keeps_dict_delete_star.
  - apply keeps_dict_on_raw_reaction_add.
  - apply keeps_dict_on_raw_reaction_remove.
Qed.

(** ** Startup population *)

(** The dict after the entries have been written into it, one after the
    other. *)
Definition filled (d : gmap Z Z) (entries : list Entry) : gmap Z Z :=
  fold_left (fun d entry => <[message_id entry := bot_message_id entry]> d) entries d.

Lemma filled_other (entries : list Entry) : forall d k,
  (forall entry, In entry entries -> message_id entry <> k) ->
  filled d entries !! k = d !! k.
Proof.
  induction entries as [| x rest IH]; intros d k Hno; [reflexivity |].
  simpl. rewrite IH by (intros entry Hin; apply Hno; now right).
  apply lookup_insert_ne. apply Hno. now left.
Qed.

Lemma filled_lookup (entries : list Entry) : forall d entry,
  List.NoDup (map message_id entries) -> In entry entries ->
  filled d entries !! message_id entry = Some (bot_message_id entry).
Proof.
  induction entries as [| x rest IH]; intros d entry Hnd Hin; [contradiction |].
  simpl in Hnd. apply List.NoDup_cons_iff in Hnd as [Hx Hnd]. simpl.
  destruct Hin as [-> | Hin]; [| now apply IH].
  rewrite filled_other; [apply lookup_insert_eq |].
  intros other Hother Heq. apply Hx. rewrite <- Heq. now apply in_map.
Qed.

Lemma populate_run (entries : list Entry) : forall b d,
  star_msg_map b = PyDict d ->
  for_each entries
    (fun entry => cache_set (message_id entry) (bot_message_id entry)) (mkEnv b [])
  = (Ok tt, mkEnv (set_map (PyDict (filled d entries)) b) []).
Proof.
  induction entries as [| x rest IH]; intros b d Hmap.
  - destruct b. simpl in *. subst. reflexivity.
  - simpl for_each. unfold bind at 1. unfold cache_set at 1.
    unfold bind, get, lift, modify, ret. simpl. rewrite Hmap. simpl.
    rewrite (IH (set_map (PyDict (<[message_id x := bot_message_id x]> d)) b)
               (<[message_id x := bot_message_id x]> d) eq_refl).
    reflexivity.
Qed.

(** X14. After [async_init], the site up and the calls going through, the
    cache answers for every message the site has an entry for with that
    entry's starboard message id, and is unchanged on every other id. *)
Theorem async_init_fills_cache_from_site (b : Bot) (d : gmap Z Z) :
  star_msg_map b = PyDict d ->
  site_up b = true ->
  (forall k entry, site_entries b !! k = Some entry -> message_id entry = k) ->
  exists d',
    async_init (mkEnv b []) = (Ok tt, mkEnv (set_map (PyDict d') b) []) /\
    (forall k entry, site_entries b !! k = Some entry ->
                     getitem (PyDict d') k = Ok (bot_message_id entry)) /\
    (forall k, site_entries b !! k = None -> d' !! k = d !! k).
Proof.
  intros Hmap Hup Hkeys.
  set (entries := map snd (map_to_list (site_entries b))).
  assert (Hin : forall entry, In entry entries <->
                              site_entries b !! message_id entry = Some entry).
  { intros entry. unfold entries. rewrite in_map_iff. split.
    - intros ([k e] & <- & Hk). apply list_elem_of_In, elem_of_map_to_list in Hk.
      simpl. now rewrite (Hkeys k e Hk).
    - intros Hk. exists (message_id entry, entry). split; [reflexivity |].
      now apply list_elem_of_In, elem_of_map_to_list. }
  assert (Hnd : List.NoDup (map message_id entries)).
  { replace (map message_id entries) with ((map_to_list (site_entries b)).*1).
    - apply NoDup_ListNoDup, NoDup_fst_map_to_list.
    - unfold entries. rewrite map_map. apply map_ext_in. intros [k e] Hk.
      apply list_elem_of_In, elem_of_map_to_list in Hk. simpl. now rewrite (Hkeys k e Hk). }
  exists (filled d entries). split; [| split].
  - unfold async_init, site_get_all. unfold bind at 1 2 3. unfold external, get. simpl.
    rewrite Hup. unfold ret at 1. fold entries. now apply populate_run.
  - intros k entry Hk. simpl. rewrite <- (Hkeys k entry Hk).
    rewrite (filled_lookup entries d entry Hnd); [reflexivity |].
    apply Hin. now rewrite (Hkeys k entry Hk).
  - intros k Hk. apply filled_other. intros entry Hentry <-.
    apply Hin in Hentry. congruence.
Qed.

Lemma async_init_fills_cache_from_site_witness :
  exists d',
    async_init (mkEnv stale []) = (Ok tt, mkEnv (set_map (PyDict d') stale) []) /\
    (forall k entry, site_entries stale !! k = Some entry ->
                     getitem (PyDict d') k = Ok (bot_message_id entry)) /\
    (forall k, site_entries stale !! k = None -> d' !! k = (∅ : gmap Z Z) !! k).
Proof.
  apply (async_init_fills_cache_from_site stale ∅).
  - reflexivity.
  - reflexivity.
  - intros k entry. simpl. intros Hk.
    destruct (Z.eq_dec 500 k) as [<- | Hne].
    + rewrite lookup_singleton_eq in Hk. injection Hk as <-. reflexivity.
    + rewrite lookup_singleton_ne in Hk by exact Hne. discriminate.
Defined.

(** ** A new entry *)

(** A bot that knows the fresh message and has neither cached nor stored
    anything for it. *)
Definition after_wipe_with_fresh_dict : Env Bot :=
  mkEnv {| star_msg_map := PyDict ∅;
           site_entries := ∅;
           site_up := true;
           messages := {[ 501 := fresh; 900 := on_board ]};
           next_message := 902 |} [].


(** The starboard message [post_new_entry] sends for [original]. *)
Definition star_message (bot_user starboard : Z) (original : Msg) (b : Bot) : Msg :=
  mkMsg (next_message b) starboard bot_user
    (StarLine (THRESHOLDS LVL1_STAR) LVL1_STAR (msg_channel original)) None.

(** The bot after a new entry for [original] has been posted, stored and
    cached. *)
Definition with_entry (bot_user starboard : Z) (original : Msg) (d : gmap Z Z) (b : Bot) : Bot :=
  {| star_msg_map := PyDict (<[msg_id original := next_message b]> d);
     site_entries := <[msg_id original :=
                        mkEntry (msg_id original) (next_message b)
                          (msg_channel original) (msg_author original)]> (site_entries b);
     site_up := site_up b;
     messages := <[next_message b := star_message bot_user starboard original b]> (messages b);
     next_message := next_message b + 1 |}.

Lemma post_new_entry_run bot_user starboard original d b :
  star_msg_map b = PyDict d ->
  site_up b = true ->
  site_entries b !! msg_id original = None ->
  post_new_entry bot_user original starboard (mkEnv b [])
  = (Ok tt, mkEnv (with_entry bot_user starboard original d b) []).
Proof.
  intros Hmap Hup Hnew.
  unfold post_new_entry, post_to_api, send, site_post, cache_set, try_except,
    bind, external, get, modify, lift, ret, with_entry, star_message. simpl.
  rewrite Hup, Hnew. simpl. rewrite Hmap. reflexivity.
Qed.

(** X15. A new entry is found again through the cache. After
    [post_new_entry] has gone through for a message the site had no entry
    for, the starboard holds the new message, the site the entry and the
    cache the mapping; [get_messages] for the same message then returns that
    starboard message after two calls to Discord and none to the site. *)
Theorem new_entry_is_found_through_cache
    (bot_user starboard : Z) (payload : Payload) (original : Msg) (d : gmap Z Z) (b : Bot)
    (rest : list (option exn)) :
  star_msg_map b = PyDict d ->
  site_up b = true ->
  site_entries b !! msg_id original = None ->
  messages b !! msg_id original = Some original ->
  messages b !! next_message b = None ->
  payload_message_id payload = msg_id original ->
  channel_id payload = msg_channel original ->
  post_new_entry bot_user original starboard (mkEnv b [])
  = (Ok tt, mkEnv (with_entry bot_user starboard original d b) []) /\
  get_messages payload (Some starboard)
    (mkEnv (with_entry bot_user starboard original d b) (None :: None :: rest))
  = (Ok (original, Some (star_message bot_user starboard original b)),
     mkEnv (with_entry bot_user starboard original d b) rest).
Proof.
  intros Hmap Hup Hnew Horig Hfresh Hpid Hpch.
  split; [now apply post_new_entry_run |].
  assert (Hne : next_message b <> msg_id original) by congruence.
  unfold get_messages, get_message, try_except, bind, external, get, lift, ret, raise.
  cbn [st plan with_entry messages star_msg_map getitem].
  rewrite Hpid, Hpch.
  rewrite (lookup_insert_ne (messages b) _ _ _ Hne), Horig, Z.eqb_refl.
  cbn [st plan with_entry messages star_msg_map getitem].
  rewrite lookup_insert_eq.
  cbn [st plan with_entry messages star_msg_map].
  rewrite lookup_insert_eq.
  cbn [star_message msg_channel]. rewrite Z.eqb_refl. reflexivity.
Qed.

Lemma new_entry_is_found_through_cache_witness :
  post_new_entry the_bot fresh starboard_channel (mkEnv (st after_wipe_with_fresh_dict) [])
  = (Ok tt,
     mkEnv (with_entry the_bot starboard_channel fresh ∅ (st after_wipe_with_fresh_dict)) []) /\
  get_messages fresh_starred (Some starboard_channel)
    (mkEnv (with_entry the_bot starboard_channel fresh ∅ (st after_wipe_with_fresh_dict))
       (None :: None :: []))
  = (Ok (fresh, Some (star_message the_bot starboard_channel fresh
                        (st after_wipe_with_fresh_dict))),
     mkEnv (with_entry the_bot starboard_channel fresh ∅ (st after_wipe_with_fresh_dict)) []).
Proof.
  apply (new_entry_is_found_through_cache the_bot starboard_channel fresh_starred fresh ∅
           (st after_wipe_with_fresh_dict) []); reflexivity.
Defined.

(** The site is down; the bot knows the fresh message. *)
Definition site_down : Bot :=
  {| star_msg_map := PyDict ∅;
     site_entries := ∅;
     site_up := false;
     messages := {[ 501 := fresh ]};
     next_message := 902 |}.

(** The cache still maps the starred message to a starboard message that has
    been deleted by hand. *)
Definition board_message_gone : Bot :=
  {| star_msg_map := PyDict {[ 500 := 900 ]};
     site_entries := {[ 500 := row ]};
     site_up := true;
     messages := {[ 500 := starred ]};
     next_message := 901 |}.

(** A message that has lost its only star and never was on the starboard. *)
Definition unstarred : Msg := mkMsg 502 general 9 (Plain "hm") None.
Definition unstarred_payload : Payload := mkPayload guild general 502 (StarEmoji LVL1_STAR).
Definition never_on_board : Bot :=
  {| star_msg_map := PyDict ∅;
     site_entries := ∅;
     site_up := true;
     messages := {[ 502 := unstarred ]};
     next_message := 901 |}.

(** X16. A post the site does not store is taken back. With the site
    answering 500, [post_new_entry] sends the starboard message, fails to
    store it, deletes the message again and ends normally: the starboard, the
    site and the cache are as before, only the message id is used up. *)
Theorem unstored_entry_is_deleted_again
    (bot_user starboard : Z) (original : Msg) (b : Bot) :
  site_up b = false ->
  messages b !! next_message b = None ->
  post_new_entry bot_user original starboard (mkEnv b [])
  = (Ok tt,
     mkEnv {| star_msg_map := star_msg_map b;
              site_entries := site_entries b;
              site_up := site_up b;
              messages := messages b;
              next_message := next_message b + 1 |} []).
Proof.
  intros Hdown Hfresh.
  unfold post_new_entry, post_to_api, send, site_post, delete_message, try_except,
    bind, external, get, modify, lift, ret.
  simpl. rewrite Hdown. simpl. rewrite lookup_insert_eq. simpl.
  rewrite delete_insert_id by exact Hfresh. reflexivity.
Qed.

Lemma unstored_entry_is_deleted_again_witness :
  post_new_entry the_bot fresh starboard_channel (mkEnv site_down [])
  = (Ok tt,
     mkEnv {| star_msg_map := star_msg_map site_down;
              site_entries := site_entries site_down;
              site_up := site_up site_down;
              messages := messages site_down;
              next_message := next_message site_down + 1 |} []).
Proof.
  apply (unstored_entry_is_deleted_again the_bot starboard_channel fresh site_down);
    reflexivity.
Defined.

(** ** Entries that go away *)

(** The bot after the entry of [original], with starboard message [star],
    has been taken off the starboard, the site and the cache [d]. *)
Definition without_entry (original star : Msg) (d : gmap Z Z) (b : Bot) : Bot :=
  {| star_msg_map := PyDict (delete (msg_id original) d);
     site_entries := delete (msg_id original) (site_entries b);
     site_up := site_up b;
     messages := delete (msg_id star) (messages b);
     next_message := next_message b |}.

(** X17. [delete_star], the site up and the calls going through, for an
    entry that is on the starboard, at the site and in the cache: all three
    are gone afterwards, and [get_messages] for the message then finds no
    starboard message, through the cache or through the site. *)
Theorem deleted_entry_is_gone_everywhere
    (payload : Payload) (starboard : Z) (original star : Msg) (entry : Entry)
    (d : gmap Z Z) (b : Bot) :
  star_msg_map b = PyDict d ->
  d !! msg_id original = Some (msg_id star) ->
  site_up b = true ->
  site_entries b !! msg_id original = Some entry ->
  messages b !! msg_id star = Some star ->
  messages b !! msg_id original = Some original ->
  msg_id star <> msg_id original ->
  payload_message_id payload = msg_id original ->
  channel_id payload = msg_channel original ->
  delete_star original (Some star) (mkEnv b [])
  = (Ok tt, mkEnv (without_entry original star d b) []) /\
  get_messages payload (Some starboard) (mkEnv (without_entry original star d b) [])
  = (Ok (original, None), mkEnv (without_entry original star d b) []).
Proof.
  intros Hmap Hcached Hup Hsite Hstar Horig Hne Hpid Hpch. unfold without_entry. split.
  - unfold delete_star, delete_message, site_delete, cache_del, try_except,
      bind, external, get, modify, lift, ret.
    simpl. rewrite Hstar. simpl. rewrite Hup, Hsite. simpl.
    rewrite Hmap. simpl. rewrite Hcached. unfold set_map, set_site, set_messages. simpl.
    rewrite Hup. reflexivity.
  - unfold get_messages, get_message, site_get, try_except, bind, external, get, lift, ret, raise.
    simpl. rewrite Hpid, Hpch.
    rewrite (lookup_delete_ne (messages b) _ _ Hne), Horig, Z.eqb_refl.
    simpl. rewrite lookup_delete_eq. simpl.
    rewrite Hup, lookup_delete_eq. reflexivity.
Qed.

Lemma deleted_entry_is_gone_everywhere_witness :
  delete_star starred (Some on_board) (mkEnv in_step [])
  = (Ok tt, mkEnv (without_entry starred on_board {[ 500 := 900 ]} in_step) []) /\
  get_messages star_added (Some starboard_channel)
    (mkEnv (without_entry starred on_board {[ 500 := 900 ]} in_step) [])
  = (Ok (starred, None), mkEnv (without_entry starred on_board {[ 500 := 900 ]} in_step) []).
Proof.
  apply (deleted_entry_is_gone_everywhere star_added starboard_channel starred on_board row
           {[ 500 := 900 ]} in_step); try reflexivity.
  discriminate.
Defined.

(** X18. A cache entry whose starboard message no longer exists is not
    healed. [get_messages] finds the id in the cache, fails to fetch the
    message and raises NotFound, which its [except KeyError] does not catch:
    the site is not asked, the cache keeps the entry, and
    [on_raw_reaction_add] lets the exception through. *)
Theorem stale_cache_entry_raises_not_found
    (Guild_id Channels_starboard bot_user : Z)
    (payload : Payload) (starboard : Z) (original : Msg) (gone_id : Z)
    (d : gmap Z Z) (b : Bot) (rest : list (option exn)) :
  star_msg_map b = PyDict d ->
  d !! msg_id original = Some gone_id ->
  messages b !! gone_id = None ->
  messages b !! msg_id original = Some original ->
  payload_message_id payload = msg_id original ->
  channel_id payload = msg_channel original ->
  guild_id payload = Guild_id ->
  emoji payload = StarEmoji LVL1_STAR ->
  channel_id payload <> Channels_starboard ->
  get_messages payload (Some starboard) (mkEnv b (None :: None :: rest))
  = (Raise NotFound, mkEnv b rest) /\
  on_raw_reaction_add Guild_id Channels_starboard bot_user payload (Some starboard)
    (mkEnv b (None :: None :: rest))
  = (Raise NotFound, mkEnv b rest).
Proof.
  intros Hmap Hcached Hgone Horig Hpid Hpch Hguild Hemoji Hnot.
  assert (Hget : get_messages payload (Some starboard) (mkEnv b (None :: None :: rest))
                 = (Raise NotFound, mkEnv b rest)).
  { unfold get_messages, get_message, try_except, bind, external, get, lift, ret, raise.
    cbn [st plan]. rewrite Hpid, Hpch, Horig, Z.eqb_refl.
    cbn [st plan]. rewrite Hmap. cbn [getitem]. rewrite Hcached.
    cbn [st plan]. rewrite Hgone. destruct b; reflexivity. }
  split; [exact Hget |].
  unfold on_raw_reaction_add. rewrite Hguild, Z.eqb_refl, Hemoji. cbn [negb].
  destruct (Z.eqb_spec (channel_id payload) Channels_starboard) as [? | _]; [contradiction |].
  unfold try_except, bind. rewrite Hget. reflexivity.
Qed.

Lemma stale_cache_entry_raises_not_found_witness :
  get_messages star_added (Some starboard_channel) (mkEnv board_message_gone [None; None])
  = (Raise NotFound, mkEnv board_message_gone []) /\
  on_raw_reaction_add guild starboard_channel the_bot star_added (Some starboard_channel)
    (mkEnv board_message_gone [None; None])
  = (Raise NotFound, mkEnv board_message_gone []).
Proof.
  apply (stale_cache_entry_raises_not_found guild starboard_channel the_bot star_added
           starboard_channel starred 900 {[ 500 := 900 ]} board_message_gone []);
    try reflexivity.
  discriminate.
Defined.

(** X19. Taking the last star off a message that never reached the
    starboard makes [on_raw_reaction_remove] raise. The message has no star
    reaction left and there is no starboard message, so the handler calls
    [delete_star] with [None]; [star.delete()] on it is an AttributeError,
    which the handlers for Forbidden and HTTPException do not catch. Nothing
    is changed. *)
Theorem last_star_removed_without_entry_raises
    (Guild_id : Z) (payload : Payload) (starboard : Z) (original : Msg)
    (d : gmap Z Z) (b : Bot) :
  guild_id payload = Guild_id ->
  star_msg_map b = PyDict d ->
  d !! msg_id original = None ->
  site_up b = true ->
  site_entries b !! msg_id original = None ->
  messages b !! msg_id original = Some original ->
  stars original = None ->
  payload_message_id payload = msg_id original ->
  channel_id payload = msg_channel original ->
  on_raw_reaction_remove Guild_id payload (Some starboard) (mkEnv b [])
  = (Raise AttributeError, mkEnv b []).
Proof.
  intros Hguild Hmap Hmiss Hup Hsite Horig Hstars Hpid Hpch.
  unfold on_raw_reaction_remove. rewrite Hguild, Z.eqb_refl. cbn [negb].
  assert (Hget : get_messages payload (Some starboard) (mkEnv b [])
                 = (Ok (original, None), mkEnv b [])).
  { unfold get_messages, get_message, site_get, try_except, bind, external, get, lift, ret, raise.
    cbn [st plan]. rewrite Hpid, Hpch, Horig, Z.eqb_refl.
    cbn [st plan]. rewrite Hmap. cbn [getitem]. rewrite Hmiss.
    cbn [st plan is_KeyError]. rewrite Hup, Hsite. reflexivity. }
  unfold try_except at 1. unfold bind at 1 2. rewrite Hget. unfold ret at 1. cbv beta iota.
  unfold ret at 1. cbv beta iota. rewrite Hstars. reflexivity.
Qed.

Lemma last_star_removed_without_entry_raises_witness :
  on_raw_reaction_remove guild unstarred_payload (Some starboard_channel)
    (mkEnv never_on_board [])
  = (Raise AttributeError, mkEnv never_on_board []).
Proof.
  apply (last_star_removed_without_entry_raises guild unstarred_payload starboard_channel
           unstarred ∅ never_on_board); reflexivity.
Defined.

(** ** One starboard message to a starred message *)

(** The star a count is shown with. *)
Definition star_for (count : Z) : Star :=
  if count <? THRESHOLDS LVL2_STAR then LVL1_STAR
  else if count <? THRESHOLDS LVL3_STAR then LVL2_STAR
  else if count <? THRESHOLDS LVL4_STAR then LVL3_STAR
  else LVL4_STAR.

Lemma get_messages_nothing_known payload starboard original d b :
  star_msg_map b = PyDict d ->
  d !! msg_id original = None ->
  site_up b = true ->
  site_entries b !! msg_id original = None ->
  messages b !! msg_id original = Some original ->
  payload_message_id payload = msg_id original ->
  channel_id payload = msg_channel original ->
  get_messages payload (Some starboard) (mkEnv b []) = (Ok (original, None), mkEnv b []).
Proof.
  intros Hmap Hmiss Hup Hsite Horig Hpid Hpch.
  unfold get_messages, get_message, site_get, try_except, bind, external, get, lift, ret, raise.
  simpl. rewrite Hpid, Hpch, Horig, Z.eqb_refl. simpl. rewrite Hmap. simpl. rewrite Hmiss.
  simpl. rewrite Hup, Hsite. reflexivity.
Qed.

Lemma get_messages_entry_known bot_user payload starboard original d b :
  messages b !! msg_id original = Some original ->
  messages b !! next_message b = None ->
  payload_message_id payload = msg_id original ->
  channel_id payload = msg_channel original ->
  get_messages payload (Some starboard) (mkEnv (with_entry bot_user starboard original d b) [])
  = (Ok (original, Some (star_message bot_user starboard original b)),
     mkEnv (with_entry bot_user starboard original d b) []).
Proof.
  intros Horig Hfresh Hpid Hpch.
  assert (Hne : next_message b <> msg_id original) by congruence.
  unfold get_messages, get_message, try_except, bind, external, get, lift, ret, raise.
  cbn [st plan with_entry messages star_msg_map getitem].
  rewrite Hpid, Hpch.
  rewrite (lookup_insert_ne (messages b) _ _ _ Hne), Horig, Z.eqb_refl.
  cbn [st plan with_entry messages star_msg_map getitem].
  rewrite lookup_insert_eq.
  cbn [st plan with_entry messages star_msg_map].
  rewrite lookup_insert_eq.
  cbn [star_message msg_channel]. rewrite Z.eqb_refl. reflexivity.
Qed.

(** X20. A message is posted to the starboard once. The first star event at
    or above the threshold, for a message neither cache nor site know, posts
    the starboard message, stores the entry and caches the mapping. The next
    star event for the message sends nothing new: it edits that starboard
    message to the current count and star, and cache and site stay as they
    are. *)
Theorem second_star_edits_the_posted_message
    (Guild_id Channels_starboard bot_user : Z) (payload : Payload) (original : Msg)
    (count : Z) (d : gmap Z Z) (b : Bot) :
  guild_id payload = Guild_id ->
  emoji payload = StarEmoji LVL1_STAR ->
  channel_id payload <> Channels_starboard ->
  payload_message_id payload = msg_id original ->
  channel_id payload = msg_channel original ->
  stars original = Some count ->
  THRESHOLDS LVL1_STAR <= count ->
  star_msg_map b = PyDict d ->
  d !! msg_id original = None ->
  site_up b = true ->
  site_entries b !! msg_id original = None ->
  messages b !! msg_id original = Some original ->
  messages b !! next_message b = None ->
  on_raw_reaction_add Guild_id Channels_starboard bot_user payload (Some Channels_starboard)
    (mkEnv b [])
  = (Ok tt, mkEnv (with_entry bot_user Channels_starboard original d b) []) /\
  exists second,
    on_raw_reaction_add Guild_id Channels_starboard bot_user payload (Some Channels_starboard)
      (mkEnv (with_entry bot_user Channels_starboard original d b) [])
    = (Ok tt, mkEnv second []) /\
    next_message second = next_message (with_entry bot_user Channels_starboard original d b) /\
    star_msg_map second = star_msg_map (with_entry bot_user Channels_starboard original d b) /\
    site_entries second = site_entries (with_entry bot_user Channels_starboard original d b) /\
    messages second !! next_message b
    = Some (mkMsg (next_message b) Channels_starboard bot_user
              (StarLine count (star_for count) (msg_channel original)) None) /\
    messages second !! msg_id original = Some original.
Proof.
  intros Hguild Hemoji Hnot Hpid Hpch Hstars Hcount Hmap Hmiss Hup Hsite Horig Hfresh.
  assert (Hne : next_message b <> msg_id original) by congruence.
  assert (Hhead : forall w,
            on_raw_reaction_add Guild_id Channels_starboard bot_user payload
              (Some Channels_starboard) w
            = bind (try_except
                      (bind (get_messages payload (Some Channels_starboard))
                         (fun found => ret (Some found)))
                      is_KeyError_or_NoStarboard (fun _ => ret None))
                (fun got =>
                   match got with
                   | Some (original, star_msg) =>
                       match stars original with
                       | None => delete_star original star_msg
                       | Some count =>
                           if count <? THRESHOLDS LVL1_STAR then ret tt
                           else match star_msg with
                                | None => post_new_entry bot_user original Channels_starboard
                                | Some star_msg =>
                                    change_starcount Channels_starboard original star_msg count
                                end
                       end
                   | None => ret tt
                   end) w).
  { intros w. unfold on_raw_reaction_add. rewrite Hguild, Z.eqb_refl, Hemoji. cbn [negb].
    destruct (Z.eqb_spec (channel_id payload) Channels_starboard) as [? | _]; [contradiction |].
    unfold bind. destruct (try_except _ _ _ w) as [[[[o sm] |] | e] w']; reflexivity. }
  assert (Hmeets : (count <? THRESHOLDS LVL1_STAR) = false) by (apply Z.ltb_ge; exact Hcount).
  split.
  - rewrite Hhead. unfold try_except at 1. unfold bind at 1 2.
    rewrite (get_messages_nothing_known payload Channels_starboard original d b
               Hmap Hmiss Hup Hsite Horig Hpid Hpch).
    unfold ret at 1. cbv beta iota. unfold ret at 1. cbv beta iota.
    rewrite Hstars, Hmeets. now apply post_new_entry_run.
  - eexists. split; [| split; [| split; [| split; [| split]]]].
    + rewrite Hhead. unfold try_except at 1. unfold bind at 1 2.
      rewrite (get_messages_entry_known bot_user payload Channels_starboard original d b
                 Horig Hfresh Hpid Hpch).
      unfold ret at 1. cbv beta iota. unfold ret at 1. cbv beta iota.
      rewrite Hstars, Hmeets.
      unfold change_starcount, edit, cache_set, site_get, try_except,
        bind, external, get, modify, lift, ret.
      cbn [st plan with_entry messages star_message msg_id msg_channel msg_author stars].
      rewrite lookup_insert_eq.
      cbn [st plan set_messages star_msg_map contains with_entry messages site_up site_entries
             is_HTTPException].
      rewrite lookup_insert_eq. cbn [negb]. cbv beta iota.
      cbn [st plan set_messages site_up site_entries with_entry].
      rewrite Hup, lookup_insert_eq. cbv beta iota. cbn [success negb]. reflexivity.
    + reflexivity.
    + reflexivity.
    + reflexivity.
    + cbn [messages set_messages st]. apply lookup_insert_eq.
    + cbn [messages set_messages st with_entry].
      rewrite !lookup_insert_ne by exact Hne. exact Horig.
Qed.

Lemma second_star_edits_the_posted_message_witness :
  on_raw_reaction_add guild starboard_channel the_bot fresh_starred (Some starboard_channel)
    (mkEnv (st after_wipe_with_fresh_dict) [])
  = (Ok tt, mkEnv (with_entry the_bot starboard_channel fresh ∅ (st after_wipe_with_fresh_dict)) []) /\
  exists second,
    on_raw_reaction_add guild starboard_channel the_bot fresh_starred (Some starboard_channel)
      (mkEnv (with_entry the_bot starboard_channel fresh ∅ (st after_wipe_with_fresh_dict)) [])
    = (Ok tt, mkEnv second []) /\
    next_message second
    = next_message (with_entry the_bot starboard_channel fresh ∅ (st after_wipe_with_fresh_dict)) /\
    star_msg_map second
    = star_msg_map (with_entry the_bot starboard_channel fresh ∅ (st after_wipe_with_fresh_dict)) /\
    site_entries second
    = site_entries (with_entry the_bot starboard_channel fresh ∅ (st after_wipe_with_fresh_dict)) /\
    messages second !! next_message (st after_wipe_with_fresh_dict)
    = Some (mkMsg (next_message (st after_wipe_with_fresh_dict)) starboard_channel the_bot
              (StarLine 2 (star_for 2) (msg_channel fresh)) None) /\
    messages second !! msg_id fresh = Some fresh.
Proof.
  apply (second_star_edits_the_posted_message guild starboard_channel the_bot fresh_starred
           fresh 2 ∅ (st after_wipe_with_fresh_dict)); try reflexivity.
  discriminate.
Defined.

End StarboardCache.

(* ===================================================================== *)
(** * Further facts: members joining and changing                         *)
(* ===================================================================== *)

Module SyncMembers.
Import Py Sync.
Local Open Scope Z_scope.

(** The body the member handlers send for [member]. *)
Definition packed_of (member : Member) : UserJson :=
  {| avatar_hash := avatar member;
     json_discriminator := discriminator member;
     json_id := member_id member;
     in_guild := true;
     json_name := name member;
     json_roles := sorted (roles member) |}.

(** The site after one more request has been recorded. *)
Definition asked (r : Request) (s : Site) : Site :=
  {| users := users s; requests := requests s ++ [r] |}.

(** A status other than 404 falls through the handler's test. *)
Ltac other_status status :=
  let p := fresh "p" in
  destruct status as [| p | p]; try reflexivity;
  repeat (destruct p as [p | p |]; try reflexivity);
  contradiction.

(** X21. [on_member_join] is an upsert. When the calls go through, the site
    afterwards holds the joining member's record, with [in_guild] true, under
    the member's id, whether it knew the member or not: one PUT for a known
    member, the PUT and then a POST of the same body for an unknown one. A
    response error with another status than 404 on the PUT ends the handler
    with that error, and no POST is made. *)
Theorem member_join_updates_or_creates (member : Member) (s : Site) :
  (exists s',
     on_member_join member (mkEnv s []) = (Ok tt, mkEnv s' []) /\
     users s' = <[member_id member := packed_of member]> (users s) /\
     in_guild (packed_of member) = true /\
     requests s'
     = requests s
       ++ match users s !! member_id member with
          | Some _ => [Put (member_id member) (packed_of member)]
          | None => [Put (member_id member) (packed_of member); Post (packed_of member)]
          end) /\
  (forall status rest,
     status <> 404 ->
     on_member_join member (mkEnv s (Some (ClientResponseError status) :: rest))
     = (Raise (ClientResponseError status),
        mkEnv (asked (Put (member_id member) (packed_of member)) s) rest)).
Proof.
  split.
  - unfold on_member_join, api_put, api_post, try_except, bind, external, get, modify, ret, raise.
    simpl. destruct (users s !! member_id member) eqn:Hu; simpl; eexists;
      (split; [reflexivity |]); simpl; (split; [reflexivity |]); (split; [reflexivity |]).
    + reflexivity.
    + now rewrite <- app_assoc.
  - intros status rest Hne.
    unfold on_member_join, api_put, try_except, bind, external, get, modify, ret.
    simpl. other_status status.
Qed.

(** X22. [on_member_update] never creates a user. With name, avatar,
    discriminator and roles unchanged it makes no request at all. Otherwise
    it makes one PUT with the new data and [in_guild] true: for a member the
    site knows the record is replaced; for one it does not know the 404 is
    swallowed, the handler returns normally and the site still has no such
    user. A response error with another status is passed on. *)
Theorem member_update_puts_once_and_never_creates (before after : Member) (s : Site) :
  (name before = name after ->
   avatar before = avatar after ->
   discriminator before = discriminator after ->
   roles before = roles after ->
   forall pl, on_member_update before after (mkEnv s pl) = (Ok tt, mkEnv s pl)) /\
  (name before <> name after \/ avatar before <> avatar after \/
   discriminator before <> discriminator after \/ roles before <> roles after ->
   (forall known,
      users s !! member_id after = Some known ->
      on_member_update before after (mkEnv s [])
      = (Ok tt,
         mkEnv {| users := <[member_id after := packed_of after]> (users s);
                  requests := requests s ++ [Put (member_id after) (packed_of after)] |} [])) /\
   (users s !! member_id after = None ->
    on_member_update before after (mkEnv s [])
    = (Ok tt, mkEnv (asked (Put (member_id after) (packed_of after)) s) [])) /\
   (forall status rest,
      status <> 404 ->
      on_member_update before after (mkEnv s (Some (ClientResponseError status) :: rest))
      = (Raise (ClientResponseError status),
         mkEnv (asked (Put (member_id after) (packed_of after)) s) rest))).
Proof.
  split.
  - intros Hn Ha Hd Hr pl. unfold on_member_update.
    rewrite !bool_decide_eq_false_2 by (intros Hne; now apply Hne). reflexivity.
  - intros Hchanged.
    assert (Hcond : bool_decide (name before <> name after)
                    || bool_decide (avatar before <> avatar after)
                    || bool_decide (discriminator before <> discriminator after)
                    || bool_decide (roles before <> roles after) = true).
    { destruct Hchanged as [H | [H | [H | H]]];
        rewrite (bool_decide_eq_true_2 _ H); rewrite ?orb_true_r; reflexivity. }
    unfold on_member_update. rewrite Hcond.
    unfold api_put, try_except, bind, external, get, modify, ret, raise. simpl.
    split; [| split].
    + intros known Hknown. now rewrite Hknown.
    + intros Hnone. now rewrite Hnone.
    + intros status rest Hne.
      other_status status.
Qed.

End SyncMembers.
